(** * mail.ru_reader: the history scans of [src/main.cpp]

    A shallow embedding of [get_history], [get_messages] and the driver
    loop of [main], together with the properties of the natural-language
    specification that concern them.

    The loaded file is a list of bytes; every pointer into it is the byte
    offset from its first byte, an integer without wrap-around (pointer
    arithmetic on a 64-bit target, where a 32-bit value added to a
    pointer cannot overflow it).  The C++ code dereferences raw pointers
    and never checks them, so each read of the model is either inside the
    file or the distinguished outcome [BadRead] (undefined behaviour in
    the source).  The loops run on fuel; [OutOfFuel] stands for a loop
    that has not come to an end. *)

From Stdlib Require Import ZArith String Ascii Bool Lia List.
From Stdlib.Strings Require Import Byte.
Import ListNotations.
Local Open Scope Z_scope.

(* ================================================================== *)
(** ** Bytes and little-endian reads *)

Module Buf.

Definition u8 (b : byte) : Z := Z.of_N (Byte.to_N b).

(** [file + off], [len] bytes: the bytes of the file at [off], when all
    of them lie inside the file. *)
Definition get_bytes (buf : list byte) (off len : Z) : option (list byte) :=
  if (off <? 0) || (len <? 0) then None
  else if off + len <=? Z.of_nat (length buf)
       then Some (firstn (Z.to_nat len) (skipn (Z.to_nat off) buf))
       else None.

(** Little-endian value of a run of bytes. *)
Fixpoint le_value (bs : list byte) : Z :=
  match bs with
  | [] => 0
  | b :: rest => u8 b + 256 * le_value rest
  end.

Definition get_uint (buf : list byte) (off width : Z) : option Z :=
  option_map le_value (get_bytes buf off width).

(** Dereferencing [file + off] as a [uint8_t], a [char16_t] and a
    [uint32_t] pointer. *)
Definition get_u8 buf off := get_uint buf off 1.
Definition get_u16 buf off := get_uint buf off 2.
Definition get_u32 buf off := get_uint buf off 4.

(** The code units of the zero-terminated [char16_t] string that starts
    at the head of [l]; [None] when the bytes end before a terminator. *)
Fixpoint cstr16 (l : list byte) : option (list Z) :=
  match l with
  | b0 :: b1 :: rest =>
      let u := u8 b0 + 256 * u8 b1 in
      if u =? 0 then Some []
      else match cstr16 rest with
           | Some us => Some (u :: us)
           | None => None
           end
  | _ => None
  end.

Definition get_cstr16 (buf : list byte) (off : Z) : option (list Z) :=
  if off <? 0 then None else cstr16 (skipn (Z.to_nat off) buf).

End Buf.
Import Buf.

(* ================================================================== *)
(** ** [std::wstring_convert<std::codecvt_utf8_utf16<char16_t>>::to_bytes] *)

Module Utf.

Definition is_high_surrogate (u : Z) : bool := (0xD800 <=? u) && (u <=? 0xDBFF).
Definition is_low_surrogate (u : Z) : bool := (0xDC00 <=? u) && (u <=? 0xDFFF).

Definition utf8_code_point (c : Z) : list Z :=
  if c <? 0x80 then [c]
  else if c <? 0x800 then
    [Z.lor 0xC0 (Z.shiftr c 6); Z.lor 0x80 (Z.land c 0x3F)]
  else if c <? 0x10000 then
    [Z.lor 0xE0 (Z.shiftr c 12);
     Z.lor 0x80 (Z.land (Z.shiftr c 6) 0x3F);
     Z.lor 0x80 (Z.land c 0x3F)]
  else
    [Z.lor 0xF0 (Z.shiftr c 18);
     Z.lor 0x80 (Z.land (Z.shiftr c 12) 0x3F);
     Z.lor 0x80 (Z.land (Z.shiftr c 6) 0x3F);
     Z.lor 0x80 (Z.land c 0x3F)].

(** UTF-16 code units to UTF-8 bytes, as the conversion of libstdc++
    does it; [None] is the conversion error on which [to_bytes] throws
    [std::range_error].  A high surrogate that is the last code unit is
    no error: the conversion stops there and what has been converted
    is the result. *)
Fixpoint utf8_of_utf16 (us : list Z) : option (list Z) :=
  match us with
  | [] => Some []
  | u :: rest =>
      if is_high_surrogate u then
        match rest with
        | u2 :: rest' =>
            if is_low_surrogate u2 then
              let c := 0x10000 + (u - 0xD800) * 0x400 + (u2 - 0xDC00) in
              option_map (app (utf8_code_point c)) (utf8_of_utf16 rest')
            else None
        | [] => Some []
        end
      else if is_low_surrogate u then None
      else option_map (app (utf8_code_point u)) (utf8_of_utf16 rest)
  end.

(** A [std::string] holding the given byte values. *)
Definition std_string (bs : list Z) : string :=
  string_of_list_ascii (map (fun z => ascii_of_N (Z.to_N z)) bs).

End Utf.
Import Utf.

(* ================================================================== *)
(** ** Structs *)

Record Email := mkEmail {
  name : string;
  (* Point to file bytes *)
  id_pair : Z
}.

Record Message := mkMessage {
  (* Point to file bytes *)
  header : Z;
  author : string;
  text : string
}.

(** Field layouts: name, size and alignment of each member, in
    declaration order. *)
Definition layout := list (string * (Z * Z)).

Definition IdPair_layout : layout :=
  [("id1", (4, 4)); ("id2", (4, 4))]%string.

Definition MessageHeader_layout : layout :=
  [("size", (4, 4)); ("prev_id", (4, 4)); ("next_id", (4, 4));
   ("_unknown1", (4, 4)); ("time", (8, 8)); ("type", (4, 4));
   ("flag_incoming", (1, 1)); ("_unknown2", (3, 1));
   ("nickname_length", (4, 4)); ("magic_number", (4, 4));
   ("message_length", (4, 4)); ("_unknown3", (4, 4));
   ("size_lps_rtf", (4, 4)); ("_unknown4", (4, 4))]%string.

Definition align_up (n a : Z) : Z := ((n + a - 1) / a) * a.

Fixpoint offsetof_from (l : layout) (field : string) (pos : Z) : option Z :=
  match l with
  | [] => None
  | (f, (size, al)) :: rest =>
      let here := align_up pos al in
      if String.eqb f field then Some here
      else offsetof_from rest field (here + size)
  end.

Definition offsetof (l : layout) (field : string) : Z :=
  match offsetof_from l field 0 with Some o => o | None => 0 end.

Definition sizeof (l : layout) : Z :=
  let end_pos := fold_left (fun pos '(_, (size, al)) => align_up pos al + size) l 0 in
  let max_al := fold_left (fun a '(_, (_, al)) => Z.max a al) l 1 in
  align_up end_pos max_al.

Definition IdPair_id1 : Z := Eval cbv in offsetof IdPair_layout "id1".
Definition IdPair_id2 : Z := Eval cbv in offsetof IdPair_layout "id2".
Definition MessageHeader_prev_id : Z :=
  Eval cbv in offsetof MessageHeader_layout "prev_id".
Definition MessageHeader_type : Z :=
  Eval cbv in offsetof MessageHeader_layout "type".
Definition MessageHeader_nickname_length : Z :=
  Eval cbv in offsetof MessageHeader_layout "nickname_length".
Definition MessageHeader_magic_number : Z :=
  Eval cbv in offsetof MessageHeader_layout "magic_number".
Definition sizeof_MessageHeader : Z := Eval cbv in sizeof MessageHeader_layout.

(* ================================================================== *)
(** ** Runs of the program

    A run threads the process state: the bytes of the loaded file (the
    scans hold plain, writable pointers into them) and the list of the
    IDs with which the offset table has been indexed so far, most recent
    first. *)

Record state := mkState {
  buf : list byte;
  resolved : list Z
}.

Inductive outcome (A : Type) : Type :=
| Done (a : A)     (* normal completion *)
| AssertFailed     (* [assert] printed its message and called [exit(1)] *)
| RangeError       (* [to_bytes] threw [std::range_error], never caught *)
| BadRead          (* a read outside the file bytes *)
| OutOfFuel.       (* the loop is still running *)

Arguments Done {A} a.
Arguments AssertFailed {A}.
Arguments RangeError {A}.
Arguments BadRead {A}.
Arguments OutOfFuel {A}.

Definition M (A : Type) : Type := state -> outcome A * state.

Definition ret {A} (a : A) : M A := fun st => (Done a, st).

Definition bind {A B} (m : M A) (k : A -> M B) : M B :=
  fun st =>
    match m st with
    | (Done a, st') => k a st'
    | (AssertFailed, st') => (AssertFailed, st')
    | (RangeError, st') => (RangeError, st')
    | (BadRead, st') => (BadRead, st')
    | (OutOfFuel, st') => (OutOfFuel, st')
    end.

Declare Scope run_scope.
Delimit Scope run_scope with run.
Notation "x <- m ;; k" := (bind m (fun x => k))
  (at level 61, m at next level, right associativity) : run_scope.
Notation "m ;; k" := (bind m (fun _ => k))
  (at level 61, right associativity) : run_scope.
Local Open Scope run_scope.

(** A read through a pointer into the file. *)
Definition load {A} (rd : list byte -> option A) : M A :=
  fun st =>
    match rd (buf st) with
    | Some v => (Done v, st)
    | None => (BadRead, st)
    end.

(** [void assert(bool cond)] of the source (not the macro of <cassert>). *)
Definition assert (cond : bool) : M unit :=
  fun st => if cond then (Done tt, st) else (AssertFailed, st).

(** [offset_table[id]], the table being the [uint32_t] array at byte
    [tbl] of the file, as [main] sets it up. *)
Definition offset_table (tbl id : Z) : M Z :=
  fun st =>
    load (fun b => get_u32 b (tbl + 4 * id))
         (mkState (buf st) (id :: resolved st)).

(** [to_bytes(ptr)] on a pointer to a zero-terminated [char16_t] run. *)
Definition to_bytes (off : Z) : M string :=
  units <- load (fun b => get_cstr16 b off) ;;
  match utf8_of_utf16 units with
  | Some bs => ret (std_string bs)
  | None => fun st => (RangeError, st)
  end.

(** [memmem]: offset of the first occurrence of the needle in the
    haystack, [None] for a null result. *)
Fixpoint is_prefix (needle hay : list byte) : bool :=
  match needle, hay with
  | [], _ => true
  | n :: needle', h :: hay' => Byte.eqb n h && is_prefix needle' hay'
  | _ :: _, [] => false
  end.

Fixpoint find_sub (hay needle : list byte) (pos : Z) : option Z :=
  if is_prefix needle hay then Some pos
  else match hay with
       | [] => None
       | _ :: hay' => find_sub hay' needle (pos + 1)
       end.

Definition memmem (hay hay_len : Z) (needle : list byte) (needle_len : Z)
  : M (option Z) :=
  window <- load (fun b => get_bytes b hay hay_len) ;;
  ret (find_sub window (firstn (Z.to_nat needle_len) needle) hay).

(** [while (cursor) { ... push_back ... ; cursor = next; }]: the shape of
    both scans.  The body yields the element it pushes, if any, and the
    next cursor. *)
Fixpoint chain_loop {A} (fuel : nat) (body : Z -> M (option A * Z))
  (cursor : Z) (acc : list A) : M (list A) :=
  if cursor =? 0 then ret acc
  else match fuel with
       | O => fun st => (OutOfFuel, st)
       | S fuel' =>
           r <- body cursor ;;
           let acc' := match fst r with
                       | Some a => acc ++ [a]
                       | None => acc
                       end in
           chain_loop fuel' body (snd r) acc'
       end.

(* ================================================================== *)
(** ** Consts and functions *)

(* "mrahistory_" UTF-16 (LE) bytes *)
Definition mrahistory : list byte :=
  [x6d; x00; x72; x00; x61; x00; x68; x00; x69; x00; x73; x00; x74; x00; x6f; x00;
   x72; x00; x79; x00; x5f; x00].

Definition sizeof_mrahistory : Z := Z.of_nat (length mrahistory).

Definition LAST_EMAIL_OFFSET : Z := 0x2C.
Definition MRAHISTORY_OFFSET : Z := 0x190.

(** One turn of the loop of [get_history]. *)
Definition history_body (file_size tbl last_email : Z) : M (option Email * Z) :=
  current_offset <- offset_table tbl last_email ;;
  assert (current_offset <? file_size) ;;
  let id_pair := current_offset + 4 in
  let mrahistory_loc := id_pair + MRAHISTORY_OFFSET in
  found <- memmem mrahistory_loc sizeof_mrahistory mrahistory sizeof_mrahistory ;;
  pushed <- match found with
            | Some _ =>
                (* Setting the pointer right after the "mrahistory_" *)
                let name_utf16 := mrahistory_loc + sizeof_mrahistory in
                nm <- to_bytes name_utf16 ;;
                ret (Some (mkEmail nm (id_pair + 0x24)))
            | None => ret None
            end ;;
  id2 <- load (fun b => get_u32 b (id_pair + IdPair_id2)) ;;
  ret (pushed, id2).

Definition get_history (fuel : nat) (file_size tbl : Z) : M (list Email) :=
  table_1 <- offset_table tbl 1 ;;
  last_email <- load (fun b => get_u32 b (table_1 + LAST_EMAIL_OFFSET)) ;;
  chain_loop fuel (history_body file_size tbl) last_email [].

Definition TYPE_SMS : Z := 0x11.

(** One turn of the loop of [get_messages]. *)
Definition messages_body (tbl msg_id : Z) : M (option Message * Z) :=
  header <- offset_table tbl msg_id ;;
  magic <- load (fun b => get_u32 b (header + MessageHeader_magic_number)) ;;
  assert (magic =? 0x38) ;;
  let author := header + sizeof_MessageHeader in
  nickname_length <- load (fun b => get_u32 b (header + MessageHeader_nickname_length)) ;;
  let text := author + 2 * nickname_length in
  first <- load (fun b => get_u16 b text) ;;
  (* TODO: This seem to never occur? *)
  text <- (if first =? 0
           then ty <- load (fun b => get_u32 b (header + MessageHeader_type)) ;;
                ret (if ty =? TYPE_SMS then text + 2 * 3 else text)
           else ret text) ;;
  author_s <- to_bytes author ;;
  text_s <- to_bytes text ;;
  prev_id <- load (fun b => get_u32 b (header + MessageHeader_prev_id)) ;;
  ret (Some (mkMessage header author_s text_s), prev_id).

Definition get_messages (fuel : nat) (file_size tbl : Z) (email : Email)
  : M (list Message) :=
  msg_id <- load (fun b => get_u32 b (id_pair email + IdPair_id1)) ;;
  chain_loop fuel (messages_body tbl) msg_id [].

(** The loop of [main] over the correspondents; it carries what the
    debug build prints, and [msgs_count]. *)
Fixpoint main_loop (fuel : nat) (file_size tbl : Z) (emails : list Email)
  (printed : list (Email * list Message)) (msgs_count : Z)
  : M (list (Email * list Message) * Z) :=
  match emails with
  | [] => ret (printed, msgs_count)
  | email :: rest =>
      messages <- get_messages fuel file_size tbl email ;;
      main_loop fuel file_size tbl rest
        (printed ++ [(email, messages)])
        ((msgs_count + Z.of_nat (length messages)) mod 2 ^ 64)
  end.

Definition OFFSETS_TABLE_LOC_OFFSET : Z := 0x10.

(** [main] from the point where the file has been read. *)
Definition main (fuel : nat) : M (list (Email * list Message) * Z) :=
  offsets_table_offset <- load (fun b => get_u32 b OFFSETS_TABLE_LOC_OFFSET) ;;
  file_size <- (fun st => (Done (Z.of_nat (length (buf st))), st)) ;;
  emails <- get_history fuel file_size offsets_table_offset ;;
  main_loop fuel file_size offsets_table_offset emails [] 0.

(** Running [main] on a file. *)
Definition run_main (fuel : nat) (file : list byte)
  : outcome (list (Email * list Message) * Z) :=
  fst (main fuel (mkState file [])).


(* ================================================================== *)
(** ** Records as the file holds them

    What the bytes of the file have to be for one turn of each loop to
    complete, stated on the file alone. *)

(** What [to_bytes] makes of the zero-terminated UTF-16 string at [off]. *)
Definition decode (b : list byte) (off : Z) : option string :=
  match get_cstr16 b off with
  | Some units => option_map std_string (utf8_of_utf16 units)
  | None => None
  end.

Definition decodes (b : list byte) (off : Z) (s : string) : Prop :=
  decode b off = Some s.

(** The signature test as an exact comparison of the 22 bytes at [loc]
    with the marker. *)
Definition signature_equals (b : list byte) (loc : Z) : bool :=
  match get_bytes b loc 22 with
  | Some window =>
      if list_eq_dec Byte.byte_eq_dec window mrahistory then true else false
  | None => false
  end.

(** The signature test as [get_history] makes it. *)
Definition signature_found (st : state) (loc : Z) : bool :=
  match fst (memmem loc sizeof_mrahistory mrahistory sizeof_mrahistory st) with
  | Done (Some _) => true
  | _ => false
  end.

(** [units] are the code units at [off] up to, and without, the first
    zero one. *)
Definition units_at (b : list byte) (off : Z) (units : list Z) : Prop :=
  (forall i, (i < length units)%nat ->
     get_u16 b (off + 2 * Z.of_nat i) = Some (nth i units 0) /\
     nth i units 0 <> 0) /\
  get_u16 b (off + 2 * Z.of_nat (length units)) = Some 0.

(** ID [id] names a record that carries the marker: [e] is what the scan
    makes of it and [next] its successor. *)
Definition correspondent_at (b : list byte) (file_size tbl id : Z)
  (e : Email) (next : Z) : Prop :=
  exists off,
    get_u32 b (tbl + 4 * id) = Some off /\
    off < file_size /\
    get_bytes b (off + 4 + 0x190) 22 = Some mrahistory /\
    decodes b (off + 4 + 0x190 + 22) (name e) /\
    id_pair e = off + 4 + 0x24 /\
    get_u32 b (off + 8) = Some next.

(** ID [id] names a record without the marker. *)
Definition other_record_at (b : list byte) (file_size tbl id next : Z) : Prop :=
  exists off window,
    get_u32 b (tbl + 4 * id) = Some off /\
    off < file_size /\
    get_bytes b (off + 4 + 0x190) 22 = Some window /\
    window <> mrahistory /\
    get_u32 b (off + 8) = Some next.

Definition history_record_at (b : list byte) (file_size tbl id : Z)
  (pushed : option Email) (next : Z) : Prop :=
  match pushed with
  | Some e => correspondent_at b file_size tbl id e next
  | None => other_record_at b file_size tbl id next
  end.

(** ID [id] names a message record: [m] is what the scan makes of it and
    [prev] its predecessor. *)
Definition message_at (b : list byte) (tbl id : Z) (m : Message) (prev : Z)
  : Prop :=
  exists nick first ty,
    get_u32 b (tbl + 4 * id) = Some (header m) /\
    get_u32 b (header m + 36) = Some 0x38 /\
    get_u32 b (header m + 32) = Some nick /\
    get_u16 b (header m + 56 + 2 * nick) = Some first /\
    get_u32 b (header m + 24) = Some ty /\
    decodes b (header m + 56) (author m) /\
    decodes b (header m + 56 + 2 * nick
               + (if (first =? 0) && (ty =? 0x11) then 6 else 0)) (text m) /\
    get_u32 b (header m + 4) = Some prev.

Definition message_record_at (b : list byte) (tbl id : Z)
  (pushed : option Message) (prev : Z) : Prop :=
  match pushed with
  | Some m => message_at b tbl id m prev
  | None => False
  end.

(** The records a loop passes through from [cursor] on until ID 0, each
    with what it pushes. *)
Inductive chain {A} (R : Z -> option A -> Z -> Prop)
  : Z -> list (Z * option A) -> Prop :=
| chain_end : chain R 0 []
| chain_step id pushed next rest :
    id <> 0 ->
    R id pushed next ->
    chain R next rest ->
    chain R id ((id, pushed) :: rest).

(** The elements pushed along a chain, in the order of the walk. *)
Fixpoint pushed_of {A} (visits : list (Z * option A)) : list A :=
  match visits with
  | [] => []
  | (_, Some a) :: rest => a :: pushed_of rest
  | (_, None) :: rest => pushed_of rest
  end.

(** [n] completed turns of a loop from [cursor]: the cursor and the state
    they lead to.  [None] when the loop ends or fails before that. *)
Fixpoint turns {A} (n : nat) (body : Z -> M (option A * Z))
  (cursor : Z) (st : state) : option (Z * state) :=
  match n with
  | O => Some (cursor, st)
  | S n' =>
      if cursor =? 0 then None
      else match body cursor st with
           | (Done r, st') => turns n' body (snd r) st'
           | _ => None
           end
  end.

(** [m'] agrees with [m] wherever [m] has come to an end. *)
Definition settled {A} (m m' : M A) : Prop :=
  forall st o st', m st = (o, st') -> o <> OutOfFuel -> m' st = (o, st').
(* ================================================================== *)
(** ** Sample files *)

Module Sample.

Definition byte_of_Z (z : Z) : byte :=
  match Byte.of_N (Z.to_N (z mod 256)) with
  | Some b => b
  | None => x00
  end.

Definition le32 (v : Z) : list byte :=
  map byte_of_Z [v; v / 256; v / 65536; v / 16777216].

(** A string of ASCII characters as zero-terminated UTF-16LE. *)
Definition utf16z (s : string) : list byte :=
  flat_map (fun a => [byte_of_ascii a; x00]) (list_ascii_of_string s)
  ++ [x00; x00].

Fixpoint poke (off : nat) (bs b : list byte) : list byte :=
  match off with
  | O => bs ++ skipn (length bs) b
  | S n => match b with
           | x :: b' => x :: poke n bs b'
           | [] => x00 :: poke n bs []
           end
  end.

Definition build (size : nat) (writes : list (Z * list byte)) : list byte :=
  fold_left (fun b w => poke (Z.to_nat (fst w)) (snd w) b) writes (repeat x00 size).

(** A message record: header fields, then author and text. *)
Definition message (at_ prev ty nick : Z) (magic : Z) (au tx : string)
  : list (Z * list byte) :=
  [(at_ + 4, le32 prev); (at_ + 24, le32 ty); (at_ + 32, le32 nick);
   (at_ + 36, le32 magic); (at_ + 56, utf16z au);
   (at_ + 56 + 2 * nick, utf16z tx)].

(** A correspondent record: IdPair, message-head IdPair, marker, name. *)
Definition correspondent (at_ next head : Z) (marker : list byte) (nm : string)
  : list (Z * list byte) :=
  [(at_ + 8, le32 next); (at_ + 4 + 0x24, le32 head);
   (at_ + 4 + 0x190, marker); (at_ + 4 + 0x190 + 22, utf16z nm)].

(** Offset table at 0x20; anchor record 1 at 0x40. *)
Definition preamble (first : Z) (table : list Z) : list (Z * list byte) :=
  [(0x10, le32 0x20); (0x20, flat_map le32 table); (0x40 + 0x2C, le32 first)].

(** One correspondent "bob" (ID 2) with two messages: ID 4, then ID 3. *)
Definition one_two : list byte :=
  build 0x2E0
    (preamble 2 [0; 0x40; 0x80; 0x290; 0x240]
     ++ correspondent 0x80 0 4 mrahistory "bob"
     ++ message 0x240 3 0 4 0x38 "ann" "hi"
     ++ message 0x290 0 0 4 0x38 "bob" "yo").

(** Three records chained 2 -> 3 -> 4 -> 0; only record 3 carries the
    marker. *)
Definition three_chain : list byte :=
  build 0x680
    (preamble 2 [0; 0x40; 0x80; 0x280; 0x480]
     ++ correspondent 0x80 3 0 (repeat x00 22) "x"
     ++ correspondent 0x280 4 0 mrahistory "eve"
     ++ correspondent 0x480 0 0 (repeat xff 22) "y").

(** Two correspondents, "ann" (ID 2) then "bob" (ID 3), one message
    each; the message of "ann" (ID 4) has magic number 0x37. *)
Definition two_bad : list byte :=
  build 0x500
    (preamble 2 [0; 0x40; 0x80; 0x280; 0x480; 0x4C0]
     ++ correspondent 0x80 3 4 mrahistory "ann"
     ++ correspondent 0x280 0 5 mrahistory "bob"
     ++ message 0x480 0 0 3 0x37 "me" "hi"
     ++ message 0x4C0 0 0 3 0x38 "me" "yo").

(** As [one_two], but the table sends message ID 4 to offset 0x1000,
    past the end of the file. *)
Definition dangling : list byte :=
  build 0x2E0
    (preamble 2 [0; 0x40; 0x80; 0x290; 0x1000]
     ++ correspondent 0x80 0 4 mrahistory "bob"
     ++ message 0x290 0 0 4 0x38 "bob" "yo").

(** A correspondent record (ID 2) placed so that it starts on the last
    byte of the file. *)
Definition last_byte : list byte :=
  build 0x80 (preamble 2 [0; 0x40; 0x7F]).

(** The only record (ID 2), without the marker, is its own successor. *)
Definition cyclic_history : list byte :=
  build 0x280
    (preamble 2 [0; 0x40; 0x80]
     ++ correspondent 0x80 2 0 (repeat x00 22) "x").

(** One correspondent whose messages 4 and 3 point at each other. *)
Definition cyclic_messages : list byte :=
  build 0x2E0
    (preamble 2 [0; 0x40; 0x80; 0x290; 0x240]
     ++ correspondent 0x80 0 4 mrahistory "bob"
     ++ message 0x240 3 0 4 0x38 "ann" "hi"
     ++ message 0x290 4 0 4 0x38 "bob" "yo").

(** A message of type 0x11 whose nickname span is empty and whose text
    position holds a zero code unit: the text is taken 3 units on. *)
Definition sms : list byte :=
  build 0x2E0
    (preamble 2 [0; 0x40; 0x80; 0x240]
     ++ correspondent 0x80 0 3 mrahistory "bob"
     ++ message 0x240 0 0x11 0 0x38 EmptyString EmptyString
     ++ [(0x240 + 56 + 6, utf16z "sms")]).

End Sample.

(** Closing a conjunction of facts about a given file by evaluation. *)
Ltac conjuncts := repeat match goal with |- _ /\ _ => split end.
Ltac evaluate := conjuncts; vm_compute; try reflexivity; try discriminate.

(* ================================================================== *)
(** ** What the scans return, stated on the file *)

(** The number of messages [main] has printed. *)
Definition total_messages (printed : list (Email * list Message)) : Z :=
  fold_right (fun p n => Z.of_nat (length (snd p)) + n) 0 printed.

(** Every message of the list carries the magic number, its prev_id
    names the next message of the list through the offset table, and
    the prev_id of the last one is 0. *)
Fixpoint linked (b : list byte) (tbl : Z) (ms : list Message) : Prop :=
  match ms with
  | [] => True
  | m :: rest =>
      get_u32 b (header m + 36) = Some 0x38 /\
      (exists prev,
         get_u32 b (header m + 4) = Some prev /\
         match rest with
         | [] => prev = 0
         | m' :: _ =>
             prev <> 0 /\ get_u32 b (tbl + 4 * prev) = Some (header m')
         end) /\
      linked b tbl rest
  end.

(** No character of the string is the NUL character. *)
Definition no_nul (s : string) : Prop :=
  ~ In Ascii.zero (list_ascii_of_string s).

Module Edge.

(** The table sends correspondent ID 2 to offset 0x1000 of a file of
    0x80 bytes. *)
Definition far_record : list byte :=
  Sample.build 0x80 (Sample.preamble 2 [0; 0x40; 0x1000]).

(** A file too short to hold the offset-table location at 0x10. *)
Definition stub : list byte := repeat x00 19.

(** One correspondent whose message-head ID is 0. *)
Definition silent : list byte :=
  Sample.build 0x280
    (Sample.preamble 2 [0; 0x40; 0x80]
     ++ Sample.correspondent 0x80 0 0 mrahistory "zoe").

End Edge.

(** The same failure, at another result type. *)
Definition failed_as {A B} (o : outcome A) (o' : outcome B) : Prop :=
  match o, o' with
  | AssertFailed, AssertFailed => True
  | RangeError, RangeError => True
  | BadRead, BadRead => True
  | OutOfFuel, OutOfFuel => True
  | _, _ => False
  end.

(** UTF-16 code units in which every surrogate is half of a pair, high
    one first, but for a high surrogate that may stand as the last
    unit. *)
Inductive well_paired : list Z -> Prop :=
| wp_nil : well_paired []
| wp_high_last u :
    is_high_surrogate u = true -> well_paired [u]
| wp_unit u rest :
    is_high_surrogate u = false -> is_low_surrogate u = false ->
    well_paired rest -> well_paired (u :: rest)
| wp_pair u u2 rest :
    is_high_surrogate u = true -> is_low_surrogate u2 = true ->
    well_paired rest -> well_paired (u :: u2 :: rest).

Module Edge2.

(** A marker record (ID 2) whose name is the lone low surrogate 0xDC00. *)
Definition lone_surrogate : list byte :=
  Sample.build 0x280
    (Sample.preamble 2 [0; 0x40; 0x80]
     ++ Sample.correspondent 0x80 0 0 mrahistory "x"
     ++ [(0x80 + 4 + 0x190 + 22, [x00; xdc; x00; x00])]).

End Edge2.
(* ================================================================== *)
(** ** Running the monad *)

Lemma bind_done {A B} (m : M A) (k : A -> M B) st a st' :
  m st = (Done a, st') -> bind m k st = k a st'.
Proof. intros E. unfold bind. now rewrite E. Qed.

Lemma load_some {A} (rd : list byte -> option A) st v :
  rd (buf st) = Some v -> load rd st = (Done v, st).
Proof. intros E. unfold load. now rewrite E. Qed.

Lemma load_none {A} (rd : list byte -> option A) st :
  rd (buf st) = None -> load rd st = (BadRead, st).
Proof. intros E. unfold load. now rewrite E. Qed.

Lemma offset_table_some tbl id st off :
  get_u32 (buf st) (tbl + 4 * id) = Some off ->
  offset_table tbl id st = (Done off, mkState (buf st) (id :: resolved st)).
Proof. intros E. unfold offset_table, load. cbn [buf]. now rewrite E. Qed.

(** What a run leaves behind: the file bytes as they were, and a few
    more indexed IDs, all satisfying [P]; its outcome depends on the
    file bytes only. *)
Definition frames {A} (P : Z -> Prop) (m : M A) : Prop :=
  forall st, exists new,
    snd (m st) = mkState (buf st) (new ++ resolved st) /\
    Forall P new /\
    forall st2, buf st2 = buf st -> fst (m st2) = fst (m st).

Lemma frames_ret {A} P (a : A) : frames P (ret a).
Proof. intros [b r]. exists []. repeat split; auto. Qed.

Lemma frames_fail {A} P (o : outcome A) : frames P (fun st => (o, st)).
Proof. intros [b r]. exists []. repeat split; auto. Qed.

Lemma frames_load {A} P (rd : list byte -> option A) : frames P (load rd).
Proof.
  intros [b r]. exists []. unfold load. simpl.
  split; [destruct (rd b); reflexivity|].
  split; [constructor|].
  intros st2 E. rewrite E. destruct (rd b); reflexivity.
Qed.

Lemma frames_assert P c : frames P (assert c).
Proof. intros [b r]. exists []. unfold assert. destruct c; repeat split; auto. Qed.

Lemma frames_offset_table (P : Z -> Prop) tbl id :
  P id -> frames P (offset_table tbl id).
Proof.
  intros HP [b r]. exists [id]. unfold offset_table, load. cbn [buf resolved].
  split; [destruct (get_u32 b _); reflexivity|].
  split; [constructor; auto|].
  intros st2 E. rewrite E. destruct (get_u32 b _); reflexivity.
Qed.

Lemma frames_bind {A B} P (m : M A) (k : A -> M B) :
  frames P m -> (forall a, frames P (k a)) -> frames P (bind m k).
Proof.
  intros Hm Hk st.
  destruct (Hm st) as (n1 & E1 & F1 & D1).
  assert (Hst2 : forall st2, buf st2 = buf st ->
            exists r2, m st2 = (fst (m st), mkState (buf st) r2)).
  { intros st2 Hb. destruct (Hm st2) as (n2 & E2 & _ & _).
    specialize (D1 st2 Hb). destruct (m st2) as [o2 s2]. simpl in *.
    subst. rewrite Hb. eauto. }
  unfold bind. destruct (m st) as [o st'] eqn:Em. simpl in E1. subst st'.
  destruct o as [a| | | |].
  - destruct (Hk a (mkState (buf st) (n1 ++ resolved st))) as (n2 & E2 & F2 & D2).
    exists (n2 ++ n1). split; [rewrite E2; simpl; now rewrite app_assoc|].
    split; [apply Forall_app; auto|].
    intros st2 Hb. destruct (Hst2 st2 Hb) as (r2 & ->). simpl.
    apply D2. reflexivity.
  - exists n1. repeat split; auto.
    intros st2 Hb. destruct (Hst2 st2 Hb) as (r2 & ->). reflexivity.
  - exists n1. repeat split; auto.
    intros st2 Hb. destruct (Hst2 st2 Hb) as (r2 & ->). reflexivity.
  - exists n1. repeat split; auto.
    intros st2 Hb. destruct (Hst2 st2 Hb) as (r2 & ->). reflexivity.
  - exists n1. repeat split; auto.
    intros st2 Hb. destruct (Hst2 st2 Hb) as (r2 & ->). reflexivity.
Qed.

Lemma frames_to_bytes P off : frames P (to_bytes off).
Proof.
  unfold to_bytes. apply frames_bind; [apply frames_load|].
  intros us. destruct (utf8_of_utf16 us); [apply frames_ret|apply frames_fail].
Qed.

Lemma frames_memmem P hay hay_len needle needle_len :
  frames P (memmem hay hay_len needle needle_len).
Proof.
  unfold memmem. apply frames_bind; [apply frames_load|].
  intros w. apply frames_ret.
Qed.

Lemma frames_chain_loop {A} (P : Z -> Prop) (body : Z -> M (option A * Z)) :
  (forall c, c <> 0 -> frames P (body c)) ->
  forall fuel cursor acc, frames P (chain_loop fuel body cursor acc).
Proof.
  intros Hbody fuel. induction fuel as [|fuel IH]; intros cursor acc; simpl.
  - destruct (Z.eqb_spec cursor 0); [apply frames_ret|apply frames_fail].
  - destruct (Z.eqb_spec cursor 0); [apply frames_ret|].
    apply frames_bind; [apply Hbody; assumption|].
    intros r. apply IH.
Qed.

Lemma frames_history_body (P : Z -> Prop) file_size tbl c :
  P c -> frames P (history_body file_size tbl c).
Proof.
  intros HP. unfold history_body.
  apply frames_bind; [apply frames_offset_table; assumption|]. intros off.
  apply frames_bind; [apply frames_assert|]. intros _.
  apply frames_bind; [apply frames_memmem|]. intros found.
  apply frames_bind.
  - destruct found; [|apply frames_ret].
    apply frames_bind; [apply frames_to_bytes|]. intros nm. apply frames_ret.
  - intros pushed. apply frames_bind; [apply frames_load|].
    intros id2. apply frames_ret.
Qed.

Lemma frames_messages_body (P : Z -> Prop) tbl c :
  P c -> frames P (messages_body tbl c).
Proof.
  intros HP. unfold messages_body.
  apply frames_bind; [apply frames_offset_table; assumption|]. intros off.
  apply frames_bind; [apply frames_load|]. intros magic.
  apply frames_bind; [apply frames_assert|]. intros _.
  apply frames_bind; [apply frames_load|]. intros nick.
  apply frames_bind; [apply frames_load|]. intros first.
  apply frames_bind.
  - destruct (first =? 0); [|apply frames_ret].
    apply frames_bind; [apply frames_load|]. intros ty. apply frames_ret.
  - intros tx. apply frames_bind; [apply frames_to_bytes|]. intros a.
    apply frames_bind; [apply frames_to_bytes|]. intros t.
    apply frames_bind; [apply frames_load|]. intros prev. apply frames_ret.
Qed.

Lemma frames_get_history (P : Z -> Prop) fuel file_size tbl :
  P 1 -> (forall c, c <> 0 -> P c) -> frames P (get_history fuel file_size tbl).
Proof.
  intros H1 HP. unfold get_history.
  apply frames_bind; [apply frames_offset_table; assumption|]. intros t1.
  apply frames_bind; [apply frames_load|]. intros c.
  apply frames_chain_loop. intros c' Hc'. apply frames_history_body. auto.
Qed.

Lemma frames_get_messages (P : Z -> Prop) fuel file_size tbl email :
  (forall c, c <> 0 -> P c) -> frames P (get_messages fuel file_size tbl email).
Proof.
  intros HP. unfold get_messages.
  apply frames_bind; [apply frames_load|]. intros c.
  apply frames_chain_loop. intros c' Hc'. apply frames_messages_body. auto.
Qed.

Lemma frames_outcome {A} P (m : M A) st st2 :
  frames P m -> buf st2 = buf st -> fst (m st2) = fst (m st).
Proof. intros H E. destruct (H st) as (new & _ & _ & D). now apply D. Qed.

Lemma frames_buf {A} P (m : M A) st :
  frames P m -> buf (snd (m st)) = buf st.
Proof. intros H. destruct (H st) as (new & -> & _). reflexivity. Qed.

Lemma frames_resolved {A} P (m : M A) st :
  frames P m ->
  exists new, resolved (snd (m st)) = new ++ resolved st /\ Forall P new.
Proof.
  intros H. destruct (H st) as (new & -> & F & _).
  exists new. split; [reflexivity|assumption].
Qed.

(* ================================================================== *)
(** ** Reads *)

Lemma u8_range x : 0 <= u8 x < 256.
Proof. destruct x; vm_compute; split; congruence. Qed.

Lemma le_value_nonneg bs : 0 <= le_value bs.
Proof.
  induction bs as [|x bs IH]; cbn [le_value]; [lia|].
  pose proof (u8_range x). lia.
Qed.

Lemma get_uint_nonneg b off w v : get_uint b off w = Some v -> 0 <= v.
Proof.
  unfold get_uint. destruct (get_bytes b off w); simpl; [|discriminate].
  intros [= <-]. apply le_value_nonneg.
Qed.

Lemma get_bytes_bounds b off len w :
  get_bytes b off len = Some w ->
  0 <= off /\ 0 <= len /\ off + len <= Z.of_nat (length b).
Proof.
  unfold get_bytes.
  destruct (Z.ltb_spec off 0), (Z.ltb_spec len 0); simpl; try discriminate.
  destruct (Z.leb_spec (off + len) (Z.of_nat (length b))); [|discriminate].
  intros _. lia.
Qed.

Lemma get_bytes_length b off len w :
  get_bytes b off len = Some w -> length w = Z.to_nat len.
Proof.
  intros E. pose proof (get_bytes_bounds _ _ _ _ E) as (H0 & H1 & H2).
  unfold get_bytes in E.
  destruct (Z.ltb_spec off 0), (Z.ltb_spec len 0); simpl in E; try lia.
  destruct (Z.leb_spec (off + len) (Z.of_nat (length b))); [|lia].
  injection E as <-. rewrite length_firstn, length_skipn. lia.
Qed.

Lemma get_bytes_inside b off len :
  0 <= off -> 0 <= len -> off + len <= Z.of_nat (length b) ->
  exists w, get_bytes b off len = Some w.
Proof.
  intros H0 H1 H2. unfold get_bytes.
  destruct (Z.ltb_spec off 0), (Z.ltb_spec len 0); simpl; try lia.
  destruct (Z.leb_spec (off + len) (Z.of_nat (length b))); [eauto|lia].
Qed.

(** A field that ends before a readable one starts inside the file. *)
Lemma get_u32_before b off off' v :
  get_u32 b off = Some v -> 0 <= off' <= off ->
  exists v', get_u32 b off' = Some v'.
Proof.
  unfold get_u32, get_uint. intros E H.
  destruct (get_bytes b off 4) eqn:Eb; [|discriminate].
  apply get_bytes_bounds in Eb.
  destruct (get_bytes_inside b off' 4) as (w & ->); try lia.
  simpl. eauto.
Qed.

Lemma skipn_two (b : list byte) n b0 b1 rest :
  skipn n b = b0 :: b1 :: rest -> skipn (n + 2) b = rest.
Proof.
  intros E. rewrite Nat.add_comm, <- skipn_skipn, E. reflexivity.
Qed.

Lemma get_u16_skipn b off b0 b1 rest :
  0 <= off ->
  skipn (Z.to_nat off) b = b0 :: b1 :: rest ->
  get_u16 b off = Some (u8 b0 + 256 * u8 b1).
Proof.
  intros H0 E. unfold get_u16, get_uint, get_bytes.
  assert (L : (length (skipn (Z.to_nat off) b) >= 2)%nat) by (rewrite E; simpl; lia).
  rewrite length_skipn in L.
  destruct (Z.ltb_spec off 0); [lia|].
  change (2 <? 0) with false. cbn [orb].
  destruct (Z.leb_spec (off + 2) (Z.of_nat (length b))); [|lia].
  rewrite E. change (Z.to_nat 2) with 2%nat.
  cbn [firstn option_map le_value]. f_equal. lia.
Qed.

Lemma get_cstr16_units b units : forall off,
  get_cstr16 b off = Some units -> units_at b off units.
Proof.
  induction units as [|u units IH]; intros off E; unfold get_cstr16 in E;
    destruct (Z.ltb_spec off 0); try discriminate;
    destruct (skipn (Z.to_nat off) b) as [|b0 [|b1 rest]] eqn:Es;
    cbn [cstr16] in E; try discriminate;
    pose proof (get_u16_skipn _ _ _ _ _ H Es) as E16;
    destruct (Z.eqb_spec (u8 b0 + 256 * u8 b1) 0) as [Ez|Ez];
    try discriminate.
  - split; [intros i Hi; inversion Hi|].
    cbn [length Z.of_nat]. rewrite Z.mul_0_r, Z.add_0_r, E16. now rewrite Ez.
  - destruct (cstr16 rest); discriminate.
  - destruct (cstr16 rest) as [us|] eqn:Er; [|discriminate].
    injection E as <- <-.
    assert (E2 : get_cstr16 b (off + 2) = Some us).
    { unfold get_cstr16. destruct (Z.ltb_spec (off + 2) 0); [lia|].
      replace (Z.to_nat (off + 2)) with (Z.to_nat off + 2)%nat by lia.
      now rewrite (skipn_two _ _ _ _ _ Es). }
    destruct (IH _ E2) as (Hi & Hz). split.
    + intros [|i] Hlt; cbn [nth].
      * change (Z.of_nat 0) with 0. rewrite Z.mul_0_r, Z.add_0_r. auto.
      * cbn [length] in Hlt.
        replace (off + 2 * Z.of_nat (S i)) with (off + 2 + 2 * Z.of_nat i) by lia.
        apply Hi. lia.
    + cbn [length]. replace (off + 2 * Z.of_nat (S (length us)))
        with (off + 2 + 2 * Z.of_nat (length us)) by lia.
      exact Hz.
Qed.

(* ================================================================== *)
(** ** [memmem] on a window as long as the needle *)

Lemma is_prefix_same_length needle : forall hay,
  length hay = length needle ->
  is_prefix needle hay = true -> hay = needle.
Proof.
  induction needle as [|n needle IH]; intros [|h hay] L E; simpl in *;
    try discriminate; try reflexivity.
  apply andb_true_iff in E as (E1 & E2).
  apply Byte.byte_dec_bl in E1. subst. f_equal. apply IH; [lia|assumption].
Qed.

Lemma is_prefix_refl needle : is_prefix needle needle = true.
Proof.
  induction needle as [|n needle IH]; simpl; [reflexivity|].
  rewrite IH, (Byte.byte_dec_lb (eq_refl n)). reflexivity.
Qed.

Lemma is_prefix_short needle : forall hay,
  (length hay < length needle)%nat -> is_prefix needle hay = false.
Proof.
  induction needle as [|n needle IH]; intros [|h hay] L; simpl in *;
    try lia; try reflexivity.
  rewrite IH by lia. apply andb_false_r.
Qed.

Lemma find_sub_short needle : forall hay pos,
  (length hay < length needle)%nat -> find_sub hay needle pos = None.
Proof.
  induction hay as [|h hay IH]; intros pos L; simpl find_sub;
    rewrite is_prefix_short by assumption; [reflexivity|].
  apply IH. simpl in L. lia.
Qed.

Lemma find_sub_same_length hay needle pos :
  length hay = length needle ->
  find_sub hay needle pos = if is_prefix needle hay then Some pos else None.
Proof.
  intros L. destruct hay as [|h hay]; simpl find_sub;
    destruct (is_prefix needle _); try reflexivity.
  apply find_sub_short. simpl in L. lia.
Qed.

(** The signature test of [get_history] on a readable window. *)
Lemma memmem_marker st loc window :
  get_bytes (buf st) loc 22 = Some window ->
  memmem loc sizeof_mrahistory mrahistory sizeof_mrahistory st
  = (Done (if is_prefix mrahistory window then Some loc else None), st).
Proof.
  intros E. unfold memmem.
  rewrite (bind_done _ _ st window st) by (apply load_some; exact E).
  unfold ret. f_equal. f_equal.
  apply find_sub_same_length.
  rewrite (get_bytes_length _ _ _ _ E). reflexivity.
Qed.

Lemma is_prefix_marker window :
  length window = 22%nat ->
  is_prefix mrahistory window = true <-> window = mrahistory.
Proof.
  intros L. split.
  - apply is_prefix_same_length. exact L.
  - intros ->. apply is_prefix_refl.
Qed.

(* ================================================================== *)
(** ** Inversion of completed runs *)

Lemma bind_inv {A B} (m : M A) (k : A -> M B) st b st' :
  bind m k st = (Done b, st') ->
  exists a st1, m st = (Done a, st1) /\ k a st1 = (Done b, st').
Proof.
  unfold bind. destruct (m st) as [[a| | | |] st1]; try discriminate.
  intros E. eauto.
Qed.

Lemma ret_inv {A} (a b : A) st st' :
  ret a st = (Done b, st') -> b = a /\ st' = st.
Proof. unfold ret. intros [= -> ->]. auto. Qed.

Lemma load_inv {A} (rd : list byte -> option A) st v st' :
  load rd st = (Done v, st') -> rd (buf st) = Some v /\ st' = st.
Proof. unfold load. destruct (rd (buf st)); intros [= -> ->]; auto. Qed.

Lemma assert_inv c st u st' :
  assert c st = (Done u, st') -> c = true /\ st' = st.
Proof. unfold assert. destruct c; intros [= <- <-]; auto. Qed.

Lemma assert_true c st : c = true -> assert c st = (Done tt, st).
Proof. intros ->. reflexivity. Qed.

Lemma offset_table_inv tbl id st off st' :
  offset_table tbl id st = (Done off, st') ->
  get_u32 (buf st) (tbl + 4 * id) = Some off /\
  st' = mkState (buf st) (id :: resolved st).
Proof.
  unfold offset_table, load. cbn [buf].
  destruct (get_u32 (buf st) (tbl + 4 * id)); intros [= -> ->]; auto.
Qed.

Lemma to_bytes_run st off s :
  decodes (buf st) off s -> to_bytes off st = (Done s, st).
Proof.
  unfold decodes, decode, to_bytes. intros E.
  destruct (get_cstr16 (buf st) off) as [units|] eqn:E1; [|discriminate].
  rewrite (bind_done _ _ st units st) by (apply load_some; exact E1).
  destruct (utf8_of_utf16 units); [|discriminate].
  now injection E as <-.
Qed.

Lemma to_bytes_inv off st s st' :
  to_bytes off st = (Done s, st') -> decodes (buf st) off s /\ st' = st.
Proof.
  unfold to_bytes. intros E.
  apply bind_inv in E as (units & st1 & E1 & E).
  apply load_inv in E1 as (E1 & ->).
  destruct (utf8_of_utf16 units) as [bs|] eqn:Eu; [|discriminate].
  apply ret_inv in E as (-> & ->).
  split; [|reflexivity]. unfold decodes, decode. now rewrite E1, Eu.
Qed.

Lemma memmem_marker_inv st loc found st' :
  memmem loc sizeof_mrahistory mrahistory sizeof_mrahistory st = (Done found, st') ->
  exists window,
    get_bytes (buf st) loc 22 = Some window /\
    found = (if is_prefix mrahistory window then Some loc else None) /\
    st' = st.
Proof.
  intros E. pose proof E as E0. unfold memmem in E.
  apply bind_inv in E as (window & st1 & E1 & _).
  apply load_inv in E1 as (E1 & _).
  exists window. split; [exact E1|].
  rewrite (memmem_marker _ _ _ E1) in E0. injection E0 as <- <-. auto.
Qed.

(* ================================================================== *)
(** ** One turn of each loop *)

Lemma history_body_run st file_size tbl id pushed next :
  history_record_at (buf st) file_size tbl id pushed next ->
  history_body file_size tbl id st
  = (Done (pushed, next), mkState (buf st) (id :: resolved st)).
Proof.
  intros H. unfold history_body.
  assert (Hid2 : forall off, off + 4 + IdPair_id2 = off + 8)
    by (intros; unfold IdPair_id2; lia).
  destruct pushed as [[nm idp]|].
  - destruct H as (off & Hoff & Hlt & Hw & Hname & Hidp & Hnext).
    cbn [name id_pair] in *. subst idp.
    rewrite (bind_done _ _ _ _ _ (offset_table_some _ _ _ _ Hoff)).
    erewrite bind_done by (apply assert_true, Z.ltb_lt; exact Hlt).
    erewrite bind_done by (apply memmem_marker; exact Hw).
    rewrite is_prefix_refl.
    erewrite bind_done
      by (erewrite bind_done by (apply to_bytes_run; exact Hname); reflexivity).
    erewrite bind_done by (apply load_some; rewrite Hid2; exact Hnext).
    reflexivity.
  - destruct H as (off & window & Hoff & Hlt & Hw & Hne & Hnext).
    rewrite (bind_done _ _ _ _ _ (offset_table_some _ _ _ _ Hoff)).
    erewrite bind_done by (apply assert_true, Z.ltb_lt; exact Hlt).
    erewrite bind_done by (apply memmem_marker; exact Hw).
    destruct (is_prefix mrahistory window) eqn:Ep.
    + apply is_prefix_marker in Ep; [contradiction|].
      now rewrite (get_bytes_length _ _ _ _ Hw).
    + erewrite bind_done by reflexivity.
      erewrite bind_done by (apply load_some; rewrite Hid2; exact Hnext).
      reflexivity.
Qed.

Lemma history_body_done st file_size tbl id pushed next st' :
  history_body file_size tbl id st = (Done (pushed, next), st') ->
  history_record_at (buf st) file_size tbl id pushed next.
Proof.
  unfold history_body. intros E.
  assert (Hid2 : forall off, off + 4 + IdPair_id2 = off + 8)
    by (intros; unfold IdPair_id2; lia).
  apply bind_inv in E as (off & st1 & E1 & E).
  apply offset_table_inv in E1 as (Hoff & ->).
  apply bind_inv in E as (u & st1 & E1 & E).
  apply assert_inv in E1 as (Hlt & ->). apply Z.ltb_lt in Hlt.
  apply bind_inv in E as (found & st1 & E1 & E).
  apply memmem_marker_inv in E1 as (window & Hw & -> & ->).
  apply bind_inv in E as (p & st1 & E1 & E).
  apply bind_inv in E as (id2 & st2 & E2 & E).
  apply ret_inv in E as ([= -> ->] & _).
  destruct (is_prefix mrahistory window) eqn:Ep.
  - apply is_prefix_marker in Ep;
      [|now rewrite (get_bytes_length _ _ _ _ Hw)]. subst window.
    apply bind_inv in E1 as (nm & st3 & E3 & E1).
    apply to_bytes_inv in E3 as (Hname & ->).
    apply ret_inv in E1 as (-> & ->).
    apply load_inv in E2 as (Hnext & _). rewrite Hid2 in Hnext.
    exists off. cbn [name id_pair buf] in *. repeat split; auto.
  - apply ret_inv in E1 as (-> & ->).
    apply load_inv in E2 as (Hnext & _). rewrite Hid2 in Hnext.
    exists off, window. cbn [buf] in *. repeat split; auto.
    intros ->. rewrite is_prefix_refl in Ep. discriminate.
Qed.

Lemma messages_body_run st tbl id pushed prev :
  message_record_at (buf st) tbl id pushed prev ->
  messages_body tbl id st
  = (Done (pushed, prev), mkState (buf st) (id :: resolved st)).
Proof.
  intros H. unfold messages_body.
  destruct pushed as [[hdr au tx]|]; [|contradiction].
  destruct H as (nick & first & ty & Hoff & Hmagic & Hnick & Hfirst & Hty
                 & Hau & Htx & Hprev).
  cbn [header author text] in *.
  rewrite (bind_done _ _ _ _ _ (offset_table_some _ _ _ _ Hoff)).
  erewrite bind_done by (apply load_some; exact Hmagic).
  erewrite bind_done by (apply assert_true; reflexivity).
  erewrite bind_done by (apply load_some; exact Hnick).
  erewrite bind_done by (apply load_some; exact Hfirst).
  erewrite bind_done with
    (a := hdr + 56 + 2 * nick + (if (first =? 0) && (ty =? 17) then 6 else 0)).
  2:{ destruct (first =? 0); cbn [andb].
      - erewrite bind_done by (apply load_some; exact Hty).
        unfold ret, TYPE_SMS, sizeof_MessageHeader.
        destruct (ty =? 17);
          (apply (f_equal2 pair); [apply f_equal; lia|reflexivity]).
      - unfold ret, sizeof_MessageHeader.
        apply (f_equal2 pair); [apply f_equal; lia|reflexivity]. }
  erewrite bind_done by (apply to_bytes_run; exact Hau).
  erewrite bind_done by (apply to_bytes_run; exact Htx).
  erewrite bind_done by (apply load_some; exact Hprev).
  reflexivity.
Qed.

Lemma messages_body_done st tbl id pushed prev st' :
  messages_body tbl id st = (Done (pushed, prev), st') ->
  message_record_at (buf st) tbl id pushed prev.
Proof.
  unfold messages_body. intros E.
  apply bind_inv in E as (hdr & st1 & E1 & E).
  apply offset_table_inv in E1 as (Hoff & ->).
  apply bind_inv in E as (magic & st1 & E1 & E).
  apply load_inv in E1 as (Hmagic & ->).
  apply bind_inv in E as (u & st1 & E1 & E).
  apply assert_inv in E1 as (Hm & ->). apply Z.eqb_eq in Hm. subst magic.
  apply bind_inv in E as (nick & st1 & E1 & E).
  apply load_inv in E1 as (Hnick & ->).
  apply bind_inv in E as (first & st1 & E1 & E).
  apply load_inv in E1 as (Hfirst & ->).
  apply bind_inv in E as (tpos & st1 & Et & E).
  apply bind_inv in E as (au & st2 & E1 & E).
  apply to_bytes_inv in E1 as (Hau & ->).
  apply bind_inv in E as (tx & st2 & E1 & E).
  apply to_bytes_inv in E1 as (Htx & ->).
  apply bind_inv in E as (p & st2 & E1 & E).
  apply load_inv in E1 as (Hprev & ->).
  apply ret_inv in E as ([= -> ->] & _).
  cbn [buf] in *.
  assert (Hh : 0 <= hdr) by (eapply get_uint_nonneg; exact Hoff).
  destruct (get_u32_before _ _ (hdr + 24) _ Hmagic) as (ty & Hty);
    [unfold MessageHeader_magic_number; lia|].
  assert (Hst : buf st1 = buf st /\
            tpos = hdr + 56 + 2 * nick
                   + (if (first =? 0) && (ty =? 17) then 6 else 0)).
  { destruct (first =? 0); cbn [andb].
    - apply bind_inv in Et as (ty' & st3 & E1 & Et).
      apply load_inv in E1 as (Hty' & ->). cbn [buf] in Hty'.
      unfold MessageHeader_type in Hty'. rewrite Hty in Hty'.
      injection Hty' as <-.
      apply ret_inv in Et as (-> & ->). split; [reflexivity|].
      unfold TYPE_SMS, sizeof_MessageHeader. destruct (ty =? 17); lia.
    - apply ret_inv in Et as (-> & ->). split; [reflexivity|].
      unfold sizeof_MessageHeader. lia. }
  destruct Hst as (Hb & ->). rewrite Hb in *.
  exists nick, first, ty. cbn [header author text]. repeat split; auto.
Qed.

(* ================================================================== *)
(** ** The loops *)

Lemma chain_loop_zero {A} fuel (body : Z -> M (option A * Z)) acc st :
  chain_loop fuel body 0 acc st = (Done acc, st).
Proof. destruct fuel; reflexivity. Qed.

Lemma chain_loop_turn {A} fuel (body : Z -> M (option A * Z)) c acc st :
  c <> 0 ->
  chain_loop (S fuel) body c acc st
  = bind (body c)
      (fun r => chain_loop fuel body (snd r)
                  match fst r with Some a => acc ++ [a] | None => acc end) st.
Proof. intros Hc. cbn [chain_loop]. apply Z.eqb_neq in Hc. now rewrite Hc. Qed.

Section Loop.

Context {A : Type}.
Variable body : Z -> M (option A * Z).
Variable R : list byte -> Z -> option A -> Z -> Prop.

Hypothesis body_run : forall st c x next,
  R (buf st) c x next ->
  body c st = (Done (x, next), mkState (buf st) (c :: resolved st)).

Hypothesis body_done : forall st c x next st',
  body c st = (Done (x, next), st') -> R (buf st) c x next.

Lemma pushed_of_step id (x : option A) rest acc :
  match x with Some a => acc ++ [a] | None => acc end ++ pushed_of rest
  = acc ++ pushed_of ((id, x) :: rest).
Proof. destruct x; cbn [pushed_of]; [now rewrite <- app_assoc|reflexivity]. Qed.

Lemma chain_loop_run b c visits :
  chain (R b) c visits ->
  forall fuel acc st,
    buf st = b -> (length visits <= fuel)%nat ->
    chain_loop fuel body c acc st
    = (Done (acc ++ pushed_of visits),
       mkState b (rev (map fst visits) ++ resolved st)).
Proof.
  induction 1 as [|id x next rest Hid HR Hrest IH]; intros fuel acc st Hb Hf.
  - rewrite chain_loop_zero. cbn. rewrite app_nil_r. destruct st; cbn in *.
    now subst.
  - destruct fuel as [|fuel]; [cbn in Hf; lia|].
    rewrite chain_loop_turn by assumption. subst b.
    rewrite (bind_done _ _ _ _ _ (body_run _ _ _ _ HR)). cbn [fst snd].
    rewrite IH; [|reflexivity|cbn in Hf; lia].
    rewrite (pushed_of_step id). cbn [map fst rev resolved].
    now rewrite <- app_assoc.
Qed.

Lemma chain_loop_done fuel : forall c acc st res st',
  chain_loop fuel body c acc st = (Done res, st') ->
  exists visits,
    chain (R (buf st)) c visits /\
    res = acc ++ pushed_of visits /\
    st' = mkState (buf st) (rev (map fst visits) ++ resolved st) /\
    (length visits <= fuel)%nat.
Proof.
  induction fuel as [|fuel IH]; intros c acc st res st' E.
  - cbn [chain_loop] in E. destruct (Z.eqb_spec c 0); [|discriminate].
    injection E as <- <-. subst c. exists []. cbn. rewrite app_nil_r.
    destruct st; repeat split; auto. constructor.
  - destruct (Z.eq_dec c 0) as [->|Hc].
    + rewrite chain_loop_zero in E. injection E as <- <-.
      exists []. cbn. rewrite app_nil_r.
      destruct st; repeat split; auto; [constructor|lia].
    + rewrite chain_loop_turn in E by assumption.
      apply bind_inv in E as ([x next] & st1 & Eb & E). cbn [fst snd] in E.
      pose proof (body_done _ _ _ _ _ Eb) as HR.
      rewrite (body_run _ _ _ _ HR) in Eb. injection Eb as <-.
      apply IH in E as (rest & Hrest & -> & -> & Hlen). cbn [buf resolved] in *.
      exists ((c, x) :: rest). repeat split.
      * econstructor; eauto.
      * apply pushed_of_step.
      * cbn [map fst rev]. now rewrite <- app_assoc.
      * cbn [length]. lia.
Qed.

End Loop.

Section Turns.

Context {A : Type}.
Variable body : Z -> M (option A * Z).

Lemma turns_add k : forall m c st,
  turns (k + m) body c st
  = match turns k body c st with
    | Some (c', st') => turns m body c' st'
    | None => None
    end.
Proof.
  induction k as [|k IH]; intros m c st; [reflexivity|].
  cbn [Nat.add turns]. destruct (c =? 0); [reflexivity|].
  destruct (body c st) as [[r| | | |] st1]; auto.
Qed.

Lemma turns_live n : forall c st c' st' acc,
  turns n body c st = Some (c', st') -> c' <> 0 ->
  chain_loop n body c acc st = (OutOfFuel, st').
Proof.
  induction n as [|n IH]; intros c st c' st' acc E Hc'.
  - injection E as -> ->. cbn [chain_loop].
    apply Z.eqb_neq in Hc'. now rewrite Hc'.
  - cbn [turns] in E. destruct (Z.eqb_spec c 0); [discriminate|].
    rewrite chain_loop_turn by assumption.
    destruct (body c st) as [[r| | | |] st1] eqn:Eb; try discriminate.
    rewrite (bind_done _ _ _ _ _ Eb). eapply IH; eauto.
Qed.

Lemma turns_stop n : forall c st st' acc fuel,
  turns n body c st = Some (0, st') -> (n <= fuel)%nat ->
  exists res, chain_loop fuel body c acc st = (Done res, st').
Proof.
  induction n as [|n IH]; intros c st st' acc fuel E Hf.
  - injection E as -> ->. rewrite chain_loop_zero. eauto.
  - cbn [turns] in E. destruct (Z.eqb_spec c 0); [discriminate|].
    destruct fuel as [|fuel]; [lia|].
    rewrite chain_loop_turn by assumption.
    destruct (body c st) as [[r| | | |] st1] eqn:Eb; try discriminate.
    rewrite (bind_done _ _ _ _ _ Eb). eapply IH; eauto. lia.
Qed.

(** A turn that ends in a failed assertion ends the loop with it. *)
Lemma turns_assert_failed n : forall c st c' st1 st2 acc fuel,
  turns n body c st = Some (c', st1) -> c' <> 0 ->
  body c' st1 = (AssertFailed, st2) -> (n < fuel)%nat ->
  chain_loop fuel body c acc st = (AssertFailed, st2).
Proof.
  induction n as [|n IH]; intros c st c' st1 st2 acc fuel E Hc' Eb Hf;
    (destruct fuel as [|fuel]; [lia|]).
  - injection E as -> ->. rewrite chain_loop_turn by assumption.
    unfold bind. now rewrite Eb.
  - cbn [turns] in E. destruct (Z.eqb_spec c 0); [discriminate|].
    rewrite chain_loop_turn by assumption.
    destruct (body c st) as [[r| | | |] st'] eqn:E1; try discriminate.
    rewrite (bind_done _ _ _ _ _ E1). eapply IH; eauto. lia.
Qed.

Hypothesis body_frames : forall c, frames (fun _ => True) (body c).

Lemma turns_buf n : forall c st c' st',
  turns n body c st = Some (c', st') -> buf st' = buf st.
Proof.
  induction n as [|n IH]; intros c st c' st' E.
  - now injection E as <- <-.
  - cbn [turns] in E. destruct (c =? 0); [discriminate|].
    destruct (body_frames c st) as (new & Es & _ & _).
    destruct (body c st) as [[r| | | |] st1]; try discriminate.
    cbn [snd] in Es. apply IH in E. rewrite E, Es. reflexivity.
Qed.

Lemma turns_indep n : forall c st1 st2 c' st1',
  buf st2 = buf st1 ->
  turns n body c st1 = Some (c', st1') ->
  exists st2', turns n body c st2 = Some (c', st2').
Proof.
  induction n as [|n IH]; intros c st1 st2 c' st1' Hb E.
  - injection E as <- <-. cbn. eauto.
  - cbn [turns] in *. destruct (c =? 0); [discriminate|].
    destruct (body_frames c st1) as (n1 & Es1 & _ & D).
    destruct (body_frames c st2) as (n2 & Es2 & _ & _).
    specialize (D st2 Hb).
    destruct (body c st1) as [[r| | | |] s1]; try discriminate.
    destruct (body c st2) as [o2 s2]. cbn [fst snd] in *. subst o2.
    eapply IH; [|exact E]. rewrite Es1, Es2. cbn. exact Hb.
Qed.

(** A cursor that comes back after [k] turns keeps the loop going. *)
Lemma turns_cycle k c st st' :
  c <> 0 -> (0 < k)%nat -> turns k body c st = Some (c, st') ->
  forall n, exists c' st'', turns n body c st = Some (c', st'') /\ c' <> 0.
Proof.
  intros Hc Hk E n. induction n as [n IH] using lt_wf_ind.
  destruct (Nat.lt_ge_cases n k) as [Hlt|Hge].
  - replace k with (n + S (k - n - 1))%nat in E by lia.
    rewrite turns_add in E.
    destruct (turns n body c st) as [[c' s']|]; [|discriminate].
    exists c', s'. split; [reflexivity|].
    cbn [turns] in E. destruct (Z.eqb_spec c' 0); [discriminate|assumption].
  - replace n with (k + (n - k))%nat by lia. rewrite turns_add, E.
    destruct (IH (n - k)%nat ltac:(lia)) as (c' & s' & E' & Hc').
    destruct (turns_indep _ _ _ st' _ _ (turns_buf _ _ _ _ _ E) E')
      as (s2 & E2).
    eauto.
Qed.

Lemma chain_loop_cycle k c st st' :
  c <> 0 -> (0 < k)%nat -> turns k body c st = Some (c, st') ->
  forall fuel acc, fst (chain_loop fuel body c acc st) = OutOfFuel.
Proof.
  intros Hc Hk E fuel acc.
  destruct (turns_cycle k c st st' Hc Hk E fuel) as (c' & s' & E' & Hc').
  now rewrite (turns_live _ _ _ _ _ acc E' Hc').
Qed.

End Turns.

(* ================================================================== *)
(** ** More fuel changes nothing once a run has ended *)

Lemma settled_refl {A} (m : M A) : settled m m.
Proof. intros st o st' E _. exact E. Qed.

Lemma settled_bind {A B} (m m' : M A) (k k' : A -> M B) :
  settled m m' -> (forall a, settled (k a) (k' a)) ->
  settled (bind m k) (bind m' k').
Proof.
  intros Hm Hk st o st' E Ho. unfold bind in *.
  destruct (m st) as [o1 s1] eqn:Em.
  destruct o1 as [a| | | |];
    try (rewrite (Hm _ _ _ Em) by discriminate; exact E).
  - rewrite (Hm _ _ _ Em) by discriminate. now apply Hk.
  - injection E as <- <-. contradiction.
Qed.

Lemma settled_chain_loop {A} (body : Z -> M (option A * Z)) more fuel :
  forall c acc,
    settled (chain_loop fuel body c acc) (chain_loop (fuel + more) body c acc).
Proof.
  induction fuel as [|fuel IH]; intros c acc.
  - intros st o st' E Ho. cbn [chain_loop] in E.
    destruct (Z.eqb_spec c 0) as [->|Hc].
    + now rewrite chain_loop_zero.
    + injection E as <- <-. contradiction.
  - destruct (Z.eq_dec c 0) as [->|Hc].
    + intros st o st' E Ho. rewrite chain_loop_zero in *. exact E.
    + cbn [Nat.add]. intros st o st' E Ho.
      rewrite chain_loop_turn in * by assumption.
      revert st o st' E Ho. apply settled_bind; [apply settled_refl|].
      intros r. apply IH.
Qed.

Lemma settled_get_history more fuel file_size tbl :
  settled (get_history fuel file_size tbl)
          (get_history (fuel + more) file_size tbl).
Proof.
  unfold get_history.
  apply settled_bind; [apply settled_refl|]. intros t1.
  apply settled_bind; [apply settled_refl|]. intros c.
  apply settled_chain_loop.
Qed.

Lemma settled_get_messages more fuel file_size tbl email :
  settled (get_messages fuel file_size tbl email)
          (get_messages (fuel + more) file_size tbl email).
Proof.
  unfold get_messages.
  apply settled_bind; [apply settled_refl|]. intros c.
  apply settled_chain_loop.
Qed.

Lemma settled_main_loop more fuel file_size tbl emails :
  forall printed count,
    settled (main_loop fuel file_size tbl emails printed count)
            (main_loop (fuel + more) file_size tbl emails printed count).
Proof.
  induction emails as [|e emails IH]; intros printed count; cbn [main_loop].
  - apply settled_refl.
  - apply settled_bind; [apply settled_get_messages|]. intros ms. apply IH.
Qed.

Lemma settled_main more fuel : settled (main fuel) (main (fuel + more)).
Proof.
  unfold main.
  apply settled_bind; [apply settled_refl|]. intros tbl.
  apply settled_bind; [apply settled_refl|]. intros fs.
  apply settled_bind; [apply settled_get_history|]. intros emails.
  apply settled_main_loop.
Qed.

Lemma run_main_settled fuel more file o :
  run_main fuel file = o -> o <> OutOfFuel -> run_main (fuel + more) file = o.
Proof.
  unfold run_main. intros E Ho.
  destruct (main fuel (mkState file [])) as [o1 s1] eqn:Em. cbn [fst] in E.
  subst o1. now rewrite (settled_main more fuel _ _ _ Em Ho).
Qed.

(* ================================================================== *)
(** ** Loops that come back to a visited ID *)

Section Lasso.

Context {A : Type}.
Variable body : Z -> M (option A * Z).
Hypothesis body_frames : forall c, frames (fun _ => True) (body c).

Lemma turns_prefix j n c st d st2 :
  turns j body c st = Some (d, st2) -> (n < j)%nat ->
  exists c' st', turns n body c st = Some (c', st') /\ c' <> 0.
Proof.
  intros E Hn. replace j with (n + S (j - n - 1))%nat in E by lia.
  rewrite turns_add in E.
  destruct (turns n body c st) as [[c' s']|]; [|discriminate].
  exists c', s'. split; [reflexivity|].
  cbn [turns] in E. destruct (Z.eqb_spec c' 0); [discriminate|assumption].
Qed.

Lemma turns_then j : forall c st d st2 m acc,
  turns j body c st = Some (d, st2) ->
  exists acc', chain_loop (j + m) body c acc st = chain_loop m body d acc' st2.
Proof.
  induction j as [|j IH]; intros c st d st2 m acc E.
  - injection E as -> ->. exists acc. reflexivity.
  - cbn [turns] in E. destruct (Z.eqb_spec c 0); [discriminate|].
    cbn [Nat.add]. rewrite chain_loop_turn by assumption.
    destruct (body c st) as [[r| | | |] st1] eqn:Eb; try discriminate.
    rewrite (bind_done _ _ _ _ _ Eb). eapply IH. exact E.
Qed.

(** [j] turns lead from [c] to [d], and [k] more from [d] back to [d]:
    no amount of fuel ends the loop. *)
Lemma chain_loop_lasso j k c st d st2 st3 :
  turns j body c st = Some (d, st2) ->
  d <> 0 -> (0 < k)%nat ->
  turns k body d st2 = Some (d, st3) ->
  forall fuel acc, fst (chain_loop fuel body c acc st) = OutOfFuel.
Proof.
  intros Ej Hd Hk Ek fuel acc.
  destruct (Nat.lt_ge_cases fuel j) as [Hlt|Hge].
  - destruct (turns_prefix _ _ _ _ _ _ Ej Hlt) as (c' & s' & E' & Hc').
    now rewrite (turns_live _ _ _ _ _ _ acc E' Hc').
  - replace fuel with (j + (fuel - j))%nat by lia.
    destruct (turns_then j c st d st2 (fuel - j) acc Ej) as (acc' & ->).
    eapply chain_loop_cycle; eauto.
Qed.

End Lasso.

(* ================================================================== *)
(** ** The loop of [main] *)

Lemma frames_main_loop (P : Z -> Prop) fuel file_size tbl emails :
  (forall c, c <> 0 -> P c) ->
  forall printed count,
    frames P (main_loop fuel file_size tbl emails printed count).
Proof.
  intros HP. induction emails as [|e emails IH]; intros printed count;
    cbn [main_loop]; [apply frames_ret|].
  apply frames_bind; [apply frames_get_messages; assumption|].
  intros ms. apply IH.
Qed.

Lemma frames_main (P : Z -> Prop) fuel :
  P 1 -> (forall c, c <> 0 -> P c) -> frames P (main fuel).
Proof.
  intros H1 HP. unfold main.
  apply frames_bind; [apply frames_load|]. intros tbl.
  apply frames_bind.
  { intros [b r]. exists []. repeat split; auto.
    intros st2 E. cbn [fst buf] in *. now rewrite E. }
  intros fs.
  apply frames_bind; [apply frames_get_history; assumption|]. intros emails.
  apply frames_main_loop. assumption.
Qed.

(** The first correspondent whose message scan fails an assertion ends
    the loop of [main]; those after it are not scanned. *)
Lemma main_loop_assert_failed fuel file_size tbl e after : forall before st printed count,
  (forall e', In e' before ->
     exists ms, fst (get_messages fuel file_size tbl e' st) = Done ms) ->
  fst (get_messages fuel file_size tbl e st) = AssertFailed ->
  fst (main_loop fuel file_size tbl (before ++ e :: after) printed count st)
  = AssertFailed.
Proof.
  induction before as [|e' before IH]; intros st printed count Hb He;
    cbn [app main_loop]; unfold bind.
  - destruct (get_messages fuel file_size tbl e st) as [o s1].
    cbn [fst] in He. now subst o.
  - destruct (Hb e' (or_introl eq_refl)) as (ms & Hms).
    pose proof (frames_buf _ _ st
      (frames_get_messages (fun _ => True) fuel file_size tbl e' (fun _ _ => I)))
      as Es.
    destruct (get_messages fuel file_size tbl e' st) as [o s1].
    cbn [fst snd] in *. subst o.
    apply IH.
    + intros e2 H2. destruct (Hb e2 (or_intror H2)) as (ms2 & Hms2).
      exists ms2. rewrite <- Hms2.
      eapply frames_outcome; [|exact Es].
      apply (frames_get_messages (fun _ => True)). auto.
    + rewrite <- He.
      eapply frames_outcome; [|exact Es].
      apply (frames_get_messages (fun _ => True)). auto.
Qed.

(** A record whose magic number is not 0x38 fails the assertion. *)
Lemma messages_body_bad_magic st tbl id off magic :
  get_u32 (buf st) (tbl + 4 * id) = Some off ->
  get_u32 (buf st) (off + 36) = Some magic ->
  magic <> 0x38 ->
  messages_body tbl id st
  = (AssertFailed, mkState (buf st) (id :: resolved st)).
Proof.
  intros Hoff Hmagic Hne. unfold messages_body.
  rewrite (bind_done _ _ _ _ _ (offset_table_some _ _ _ _ Hoff)).
  erewrite bind_done by (apply load_some; exact Hmagic).
  apply Z.eqb_neq in Hne. rewrite Hne. reflexivity.
Qed.

Lemma decodes_units b off s :
  decodes b off s ->
  exists units,
    units_at b off units /\
    option_map std_string (utf8_of_utf16 units) = Some s.
Proof.
  unfold decodes, decode. intros E.
  destruct (get_cstr16 b off) as [units|] eqn:Eu; [|discriminate].
  exists units. split; [now apply get_cstr16_units|exact E].
Qed.


(* ================================================================== *)
(** ** The conversion of [to_bytes] *)

Lemma some_inj {A} (x y : A) : Some x = Some y -> x = y.
Proof. now intros [= ->]. Qed.

Lemma utf8_of_utf16_cons u rest :
  utf8_of_utf16 (u :: rest)
  = if is_high_surrogate u then
      match rest with
      | u2 :: rest' =>
          if is_low_surrogate u2 then
            option_map
              (app (utf8_code_point
                      (0x10000 + (u - 0xD800) * 0x400 + (u2 - 0xDC00))))
              (utf8_of_utf16 rest')
          else None
      | [] => Some []
      end
    else if is_low_surrogate u then None
    else option_map (app (utf8_code_point u)) (utf8_of_utf16 rest).
Proof. reflexivity. Qed.

Lemma utf8_of_utf16_well_paired n : forall units,
  (length units <= n)%nat ->
  (exists bs, utf8_of_utf16 units = Some bs) <-> well_paired units.
Proof.
  induction n as [|n IH]; intros units Hn.
  - destruct units; [|cbn in Hn; lia].
    split; [constructor|intros _; exists []; reflexivity].
  - destruct units as [|u rest];
      [split; [constructor|intros _; exists []; reflexivity]|].
    rewrite utf8_of_utf16_cons.
    destruct (is_high_surrogate u) eqn:Ehi.
    + destruct rest as [|u2 rest'].
      * split; [intros _; now apply wp_high_last|intros _; eauto].
      * destruct (is_low_surrogate u2) eqn:Elo.
        -- specialize (IH rest' ltac:(cbn in Hn; lia)). split.
           ++ intros (bs & E). apply wp_pair; auto. apply IH.
              destruct (utf8_of_utf16 rest'); [eauto|discriminate].
           ++ intros H. inversion H; subst; try congruence.
              match goal with H' : well_paired rest' |- _ =>
                apply IH in H' as (bs' & ->) end.
              unfold option_map. eauto.
        -- split; [intros (bs & E); discriminate|].
           intros H. inversion H; subst; congruence.
    + destruct (is_low_surrogate u) eqn:Elo.
      * split; [intros (bs & E); discriminate|].
        intros H. inversion H; subst; congruence.
      * specialize (IH rest ltac:(cbn in Hn; lia)). split.
        -- intros (bs & E). apply wp_unit; auto. apply IH.
           destruct (utf8_of_utf16 rest); [eauto|discriminate].
        -- intros H. inversion H; subst; try congruence.
           match goal with H' : well_paired rest |- _ =>
             apply IH in H' as (bs' & ->) end.
           unfold option_map. eauto.
Qed.


Lemma to_bytes_units st off units :
  get_cstr16 (buf st) off = Some units ->
  to_bytes off st
  = match utf8_of_utf16 units with
    | Some bs => (Done (std_string bs), st)
    | None => (RangeError, st)
    end.
Proof.
  intros Eu. unfold to_bytes.
  erewrite bind_done by (apply load_some; exact Eu).
  destruct (utf8_of_utf16 units); reflexivity.
Qed.

Lemma to_bytes_throws st off units :
  get_cstr16 (buf st) off = Some units ->
  ~ well_paired units ->
  to_bytes off st = (RangeError, st).
Proof.
  intros Eu Hn. rewrite (to_bytes_units _ _ _ Eu).
  destruct (utf8_of_utf16 units) as [bs|] eqn:Eb; [|reflexivity].
  exfalso. apply Hn.
  apply (utf8_of_utf16_well_paired _ units (le_n _)). eauto.
Qed.

Lemma to_bytes_converts st off units :
  get_cstr16 (buf st) off = Some units ->
  well_paired units ->
  exists s, decodes (buf st) off s.
Proof.
  intros Eu Hw.
  apply (utf8_of_utf16_well_paired _ units (le_n _)) in Hw as (bs & Eb).
  exists (std_string bs). unfold decodes, decode. now rewrite Eu, Eb.
Qed.

(** A marker record whose name [to_bytes] cannot convert. *)
Lemma history_body_range_error st file_size tbl id off units :
  get_u32 (buf st) (tbl + 4 * id) = Some off ->
  off < file_size ->
  get_bytes (buf st) (off + 4 + 0x190) 22 = Some mrahistory ->
  get_cstr16 (buf st) (off + 4 + 0x190 + 22) = Some units ->
  ~ well_paired units ->
  history_body file_size tbl id st
  = (RangeError, mkState (buf st) (id :: resolved st)).
Proof.
  intros Hoff Hlt Hw Eu Hn. unfold history_body.
  rewrite (bind_done _ _ _ _ _ (offset_table_some _ _ _ _ Hoff)).
  erewrite bind_done by (apply assert_true, Z.ltb_lt; exact Hlt).
  erewrite bind_done by (apply memmem_marker; exact Hw).
  rewrite is_prefix_refl.
  change (off + 4 + MRAHISTORY_OFFSET + sizeof_mrahistory)
    with (off + 4 + 0x190 + 22).
  unfold bind.
  rewrite (to_bytes_throws (mkState (buf st) (id :: resolved st))
             _ units Eu Hn).
  reflexivity.
Qed.

(** A turn that throws ends the loop with the exception. *)
Lemma turns_range_error {A} (body : Z -> M (option A * Z)) n :
  forall c st c' st1 st2 acc fuel,
    turns n body c st = Some (c', st1) -> c' <> 0 ->
    body c' st1 = (RangeError, st2) -> (n < fuel)%nat ->
    chain_loop fuel body c acc st = (RangeError, st2).
Proof.
  induction n as [|n IH]; intros c st c' st1 st2 acc fuel E Hc' Eb Hf;
    (destruct fuel as [|fuel]; [lia|]).
  - apply some_inj in E. injection E as -> ->.
    rewrite chain_loop_turn by assumption.
    unfold bind. now rewrite Eb.
  - cbn [turns] in E. destruct (Z.eqb_spec c 0); [discriminate|].
    rewrite chain_loop_turn by assumption.
    destruct (body c st) as [[r| | | |] st'] eqn:E1; try discriminate.
    rewrite (bind_done _ _ _ _ _ E1). eapply IH; eauto. lia.
Qed.

(* ================================================================== *)
(** ** Runs on the sample files *)

Example sizeof_MessageHeader_is_0x38 :
  sizeof MessageHeader_layout = 0x38 /\
  offsetof MessageHeader_layout "time" = 16 /\
  offsetof MessageHeader_layout "_unknown4" = 52.
Proof. evaluate. Qed.

Example utf8_of_utf16_sample :
  utf8_of_utf16 [0x41; 0x416; 0x20AC; 0xD83D; 0xDE00]
  = Some [65; 208; 150; 226; 130; 172; 240; 159; 152; 128] /\
  utf8_of_utf16 [0x41; 0xD83D] = Some [65] /\
  utf8_of_utf16 [0x41; 0xD83D; 0x42] = None /\
  utf8_of_utf16 [0xDE00; 0x41] = None.
Proof. evaluate. Qed.

Example run_one_two :
  run_main 2 Sample.one_two
  = Done ([(mkEmail "bob" 168,
            [mkMessage 576 "ann" "hi"; mkMessage 656 "bob" "yo"])], 2).
Proof. vm_compute. reflexivity. Qed.

Example run_three_chain :
  main 3 (mkState Sample.three_chain [])
  = (Done ([(mkEmail "eve" 680, [])], 0),
     mkState Sample.three_chain [4; 3; 2; 1]).
Proof. vm_compute. reflexivity. Qed.

Example run_sms :
  run_main 1 Sample.sms
  = Done ([(mkEmail "bob" 168, [mkMessage 576 EmptyString "sms"])], 1).
Proof. vm_compute. reflexivity. Qed.

Example run_one_two_short_of_fuel :
  run_main 1 Sample.one_two = OutOfFuel.
Proof. vm_compute. reflexivity. Qed.

(* ================================================================== *)
(** ** The properties of the specification *)

(** C10: the signature test of [get_history], a [memmem] search of the
    22-byte marker in the 22-byte window at (record_offset+4)+0x190,
    gives the same answer as comparing those 22 bytes with the marker
    byte for byte, for every file and every record offset; a hit is at
    the start of the window. *)
Theorem memmem_window_is_exact_comparison (st : state) (record_offset : Z) :
  let loc := record_offset + 4 + MRAHISTORY_OFFSET in
  signature_found st loc = signature_equals (buf st) loc /\
  (forall p,
     fst (memmem loc sizeof_mrahistory mrahistory sizeof_mrahistory st)
     = Done (Some p) -> p = loc).
Proof.
  intros loc. unfold signature_found, signature_equals.
  destruct (get_bytes (buf st) loc 22) as [window|] eqn:Ew.
  - rewrite (memmem_marker _ _ _ Ew). cbn [fst].
    pose proof (is_prefix_marker window
                  (get_bytes_length _ _ _ _ Ew)) as Hp.
    destruct (is_prefix mrahistory window) eqn:Ep.
    + destruct (list_eq_dec Byte.byte_eq_dec window mrahistory) as [_|Hn].
      * split; [reflexivity|]. now intros p [= <-].
      * exfalso. apply Hn, Hp. reflexivity.
    + destruct (list_eq_dec Byte.byte_eq_dec window mrahistory) as [He|_].
      * apply Hp in He. discriminate.
      * split; [reflexivity|]. discriminate.
  - unfold memmem, bind. rewrite (load_none _ _ Ew). cbn [fst].
    split; [reflexivity|]. discriminate.
Qed.

(** C8: in both scans a cursor of 0 ends the loop at once, with nothing
    read and nothing pushed, and the offset table is never indexed with
    ID 0: none of the IDs a scan, or a whole run of [main], adds to the
    indexed ones is 0. *)
Theorem id_zero_ends_loops_and_is_never_resolved
  (fuel : nat) (file_size tbl : Z) (email : Email) (st : state) :
  (forall acc, chain_loop fuel (history_body file_size tbl) 0 acc st = (Done acc, st)) /\
  (forall acc, chain_loop fuel (messages_body tbl) 0 acc st = (Done acc, st)) /\
  (exists new,
     resolved (snd (get_history fuel file_size tbl st)) = new ++ resolved st /\
     ~ In 0 new) /\
  (exists new,
     resolved (snd (get_messages fuel file_size tbl email st)) = new ++ resolved st /\
     ~ In 0 new) /\
  (exists new,
     resolved (snd (main fuel st)) = new ++ resolved st /\ ~ In 0 new).
Proof.
  assert (Hnz : forall new, Forall (fun id => id <> 0) new -> ~ In 0 new).
  { intros new F H. rewrite Forall_forall in F. now apply (F 0 H). }
  split; [intros acc; apply chain_loop_zero|].
  split; [intros acc; apply chain_loop_zero|].
  split; [|split].
  - destruct (frames_resolved (fun id => id <> 0)
                (get_history fuel file_size tbl) st) as (new & E & F).
    { apply frames_get_history; [discriminate|auto]. }
    exists new. auto.
  - destruct (frames_resolved (fun id => id <> 0)
                (get_messages fuel file_size tbl email) st) as (new & E & F).
    { apply frames_get_messages. auto. }
    exists new. auto.
  - destruct (frames_resolved (fun id => id <> 0) (main fuel) st)
      as (new & E & F).
    { apply frames_main; [discriminate|auto]. }
    exists new. auto.
Qed.

(** C9: each scan is a function of the file bytes (which hold the offset
    table and the starting ID) alone: two runs on states with the same
    file bytes end in the same way with the same correspondents or
    messages, whatever else the states hold, and neither scan changes a
    byte of the file. *)
Theorem scans_depend_on_the_file_only_and_leave_it
  (fuel : nat) (file_size tbl : Z) (email : Email) (st1 st2 : state) :
  buf st1 = buf st2 ->
  fst (get_history fuel file_size tbl st1)
  = fst (get_history fuel file_size tbl st2) /\
  buf (snd (get_history fuel file_size tbl st1)) = buf st1 /\
  fst (get_messages fuel file_size tbl email st1)
  = fst (get_messages fuel file_size tbl email st2) /\
  buf (snd (get_messages fuel file_size tbl email st1)) = buf st1.
Proof.
  intros E.
  assert (Hh : frames (fun _ => True) (get_history fuel file_size tbl))
    by (apply frames_get_history; auto).
  assert (Hm : frames (fun _ => True) (get_messages fuel file_size tbl email))
    by (apply frames_get_messages; auto).
  repeat split.
  - eapply frames_outcome; eauto.
  - eapply frames_buf; eauto.
  - eapply frames_outcome; eauto.
  - eapply frames_buf; eauto.
Qed.

Lemma scans_depend_on_the_file_only_and_leave_it_witness :
  let st1 := mkState Sample.one_two [] in
  let st2 := mkState Sample.one_two [7; 7] in
  fst (get_history 3 0x2E0 0x20 st1) = fst (get_history 3 0x2E0 0x20 st2) /\
  buf (snd (get_history 3 0x2E0 0x20 st1)) = buf st1 /\
  fst (get_messages 3 0x2E0 0x20 (mkEmail "bob" 168) st1)
  = fst (get_messages 3 0x2E0 0x20 (mkEmail "bob" 168) st2) /\
  buf (snd (get_messages 3 0x2E0 0x20 (mkEmail "bob" 168) st1)) = buf st1.
Proof.
  apply (scans_depend_on_the_file_only_and_leave_it 3 0x2E0 0x20
           (mkEmail "bob" 168)
           (mkState Sample.one_two []) (mkState Sample.one_two [7; 7])).
  reflexivity.
Defined.

(** C7: the correspondent scan takes its first cursor from the u32 at
    offset_table[1] + 0x2C, and the correspondents it returns are those
    of the records on the id2 chain from there, in the order of the
    walk; a chain that ends is scanned to its end. *)
Theorem history_starts_at_anchor_and_keeps_chain_order
  (fuel : nat) (file_size tbl : Z) (st : state) :
  (forall emails st',
     get_history fuel file_size tbl st = (Done emails, st') ->
     exists table_1 cursor visits,
       get_u32 (buf st) (tbl + 4 * 1) = Some table_1 /\
       get_u32 (buf st) (table_1 + 0x2C) = Some cursor /\
       chain (history_record_at (buf st) file_size tbl) cursor visits /\
       emails = pushed_of visits /\
       resolved st' = rev (map fst visits) ++ 1 :: resolved st) /\
  (forall table_1 cursor visits,
     get_u32 (buf st) (tbl + 4 * 1) = Some table_1 ->
     get_u32 (buf st) (table_1 + 0x2C) = Some cursor ->
     chain (history_record_at (buf st) file_size tbl) cursor visits ->
     (length visits <= fuel)%nat ->
     fst (get_history fuel file_size tbl st) = Done (pushed_of visits)).
Proof.
  split.
  - intros emails st' E. unfold get_history in E.
    apply bind_inv in E as (t1 & st1 & E1 & E).
    apply offset_table_inv in E1 as (Ht1 & ->).
    apply bind_inv in E as (c & st1 & E1 & E).
    apply load_inv in E1 as (Hc & ->). cbn [buf] in Hc.
    apply (chain_loop_done _ (fun b => history_record_at b file_size tbl)) in E.
    + destruct E as (visits & Hch & -> & -> & _). cbn [buf resolved] in *.
      exists t1, c, visits. repeat split; auto.
    + intros s c0 x nx. apply history_body_run.
    + intros s c0 x nx s'. apply history_body_done.
  - intros t1 c visits Ht1 Hc Hch Hf. unfold get_history.
    rewrite (bind_done _ _ _ _ _ (offset_table_some _ _ _ _ Ht1)).
    erewrite bind_done by (apply load_some; exact Hc).
    rewrite (chain_loop_run _ (fun b => history_record_at b file_size tbl))
      with (b := buf st) (visits := visits); auto.
    intros s c0 x nx. apply history_body_run.
Qed.

Lemma history_starts_at_anchor_and_keeps_chain_order_witness :
  exists table_1 cursor visits,
    get_u32 Sample.three_chain (0x20 + 4 * 1) = Some table_1 /\
    get_u32 Sample.three_chain (table_1 + 0x2C) = Some cursor /\
    chain (history_record_at Sample.three_chain 0x680 0x20) cursor visits /\
    [mkEmail "eve" 680] = pushed_of visits /\
    [4; 3; 2; 1] = rev (map fst visits) ++ [1].
Proof.
  apply (proj1 (history_starts_at_anchor_and_keeps_chain_order
                  3 0x680 0x20 (mkState Sample.three_chain []))
           [mkEmail "eve" 680]
           (mkState Sample.three_chain [4; 3; 2; 1])).
  vm_compute. reflexivity.
Defined.

(** C1: for a file with exactly one correspondent record, carrying the
    marker, whose message-head IdPair names a message whose prev_id names
    a second message whose prev_id is 0, the correspondent scan followed
    by the message scan returns exactly that one correspondent, with the
    name decoded from the bytes after the marker, and exactly the two
    messages, the head of the chain first and its predecessor second. *)
Theorem one_correspondent_two_messages
  (st : state) (file_size tbl table_1 cursor head older : Z)
  (e : Email) (recent first : Message) (fuel : nat) :
  get_u32 (buf st) (tbl + 4 * 1) = Some table_1 ->
  get_u32 (buf st) (table_1 + 0x2C) = Some cursor ->
  cursor <> 0 ->
  correspondent_at (buf st) file_size tbl cursor e 0 ->
  get_u32 (buf st) (id_pair e) = Some head ->
  head <> 0 ->
  message_at (buf st) tbl head recent older ->
  older <> 0 ->
  message_at (buf st) tbl older first 0 ->
  (2 <= fuel)%nat ->
  exists st',
    get_history fuel file_size tbl st = (Done [e], st') /\
    fst (get_messages fuel file_size tbl e st') = Done [recent; first].
Proof.
  intros Ht1 Hc Hnz He Hhead Hh Hrecent Ho Hfirst Hf.
  exists (mkState (buf st) (cursor :: 1 :: resolved st)). split.
  - unfold get_history.
    rewrite (bind_done _ _ _ _ _ (offset_table_some _ _ _ _ Ht1)).
    erewrite bind_done by (apply load_some; exact Hc).
    rewrite (chain_loop_run _ (fun b => history_record_at b file_size tbl))
      with (b := buf st) (visits := [(cursor, Some e)]).
    + reflexivity.
    + intros s c0 x nx. apply history_body_run.
    + apply chain_step with (next := 0); [assumption|exact He|constructor].
    + reflexivity.
    + cbn [length]. lia.
  - unfold get_messages.
    erewrite bind_done
      by (apply load_some; unfold IdPair_id1; rewrite Z.add_0_r; exact Hhead).
    rewrite (chain_loop_run _ (fun b => message_record_at b tbl))
      with (b := buf st) (visits := [(head, Some recent); (older, Some first)]).
    + reflexivity.
    + intros s c0 x nx. apply messages_body_run.
    + apply chain_step with (next := older); [assumption|exact Hrecent|].
      apply chain_step with (next := 0); [assumption|exact Hfirst|constructor].
    + reflexivity.
    + cbn [length]. lia.
Qed.

Lemma one_correspondent_two_messages_witness :
  exists st',
    get_history 2 0x2E0 0x20 (mkState Sample.one_two [])
    = (Done [mkEmail "bob" 168], st') /\
    fst (get_messages 2 0x2E0 0x20 (mkEmail "bob" 168) st')
    = Done [mkMessage 576 "ann" "hi"; mkMessage 656 "bob" "yo"].
Proof.
  apply (one_correspondent_two_messages
           (mkState Sample.one_two []) 0x2E0 0x20 0x40 2 4 3
           (mkEmail "bob" 168)
           (mkMessage 576 "ann" "hi") (mkMessage 656 "bob" "yo") 2).
  - vm_compute; reflexivity.
  - vm_compute; reflexivity.
  - discriminate.
  - exists 0x80. evaluate.
  - vm_compute; reflexivity.
  - discriminate.
  - exists 4, 0x68, 0. evaluate.
  - discriminate.
  - exists 4, 0x79, 0. evaluate.
  - lia.
Defined.

(** C2, as the code has it: take a record visited by the correspondent
    scan whose IdPair and 22-byte window at (record_offset+4)+0x190 lie
    inside the file.  When the window is not the marker, the record is
    passed over without an error and the next cursor is the id2 field
    of the IdPair at record_offset+4.  When the window is the marker
    and the name after it is a zero-terminated string inside the file
    that [to_bytes] converts, the record is pushed as a correspondent
    and the next cursor is id2 again.  When the window is the marker
    and [to_bytes] throws on the name (a surrogate code unit that is
    not half of a pair, a high one at the end apart), the record is
    neither pushed nor passed over, id2 is not followed, and the scan
    ends there with the exception.  So on a chain of three records of
    which only the middle one carries the marker the scan returns that
    one correspondent and has indexed the table with all three IDs. *)
Theorem marker_decides_emission :
  (forall st file_size tbl id off window next,
     get_u32 (buf st) (tbl + 4 * id) = Some off ->
     off < file_size ->
     get_bytes (buf st) (off + 4 + 0x190) 22 = Some window ->
     get_u32 (buf st) (off + 8) = Some next ->
     (window <> mrahistory ->
      history_body file_size tbl id st
      = (Done (None, next), mkState (buf st) (id :: resolved st))) /\
     (window = mrahistory ->
      forall units,
        get_cstr16 (buf st) (off + 4 + 0x190 + 22) = Some units ->
        (well_paired units ->
         exists nm,
           decodes (buf st) (off + 4 + 0x190 + 22) nm /\
           history_body file_size tbl id st
           = (Done (Some (mkEmail nm (off + 4 + 0x24)), next),
              mkState (buf st) (id :: resolved st))) /\
        (~ well_paired units ->
         history_body file_size tbl id st
         = (RangeError, mkState (buf st) (id :: resolved st)))) /\
     ((window = mrahistory ->
       exists nm, decodes (buf st) (off + 4 + 0x190 + 22) nm) ->
      exists pushed,
        fst (history_body file_size tbl id st) = Done (pushed, next) /\
        (pushed <> None <-> window = mrahistory))) /\
  (forall st file_size tbl table_1 cursor turns_before id st1 off units fuel,
     get_u32 (buf st) (tbl + 4 * 1) = Some table_1 ->
     get_u32 (buf st) (table_1 + 0x2C) = Some cursor ->
     turns turns_before (history_body file_size tbl) cursor
       (mkState (buf st) (1 :: resolved st)) = Some (id, st1) ->
     id <> 0 ->
     (turns_before < fuel)%nat ->
     get_u32 (buf st) (tbl + 4 * id) = Some off ->
     off < file_size ->
     get_bytes (buf st) (off + 4 + 0x190) 22 = Some mrahistory ->
     get_cstr16 (buf st) (off + 4 + 0x190 + 22) = Some units ->
     ~ well_paired units ->
     get_history fuel file_size tbl st
     = (RangeError, mkState (buf st) (id :: resolved st1))) /\
  (forall st file_size tbl table_1 a b c e fuel,
     get_u32 (buf st) (tbl + 4 * 1) = Some table_1 ->
     get_u32 (buf st) (table_1 + 0x2C) = Some a ->
     a <> 0 -> b <> 0 -> c <> 0 ->
     other_record_at (buf st) file_size tbl a b ->
     correspondent_at (buf st) file_size tbl b e c ->
     other_record_at (buf st) file_size tbl c 0 ->
     (3 <= fuel)%nat ->
     get_history fuel file_size tbl st
     = (Done [e], mkState (buf st) ([c; b; a; 1] ++ resolved st))).
Proof.
  split; [|split].
  - intros st file_size tbl id off window next Hoff Hlt Hw Hnext.
    split; [|split].
    + intros Hne. apply history_body_run. exists off, window. auto 10.
    + intros -> units Eu. split.
      * intros Hwp.
        destruct (to_bytes_converts _ _ _ Eu Hwp) as (nm & Hnm).
        exists nm. split; [exact Hnm|].
        apply (history_body_run st file_size tbl id
                 (Some (mkEmail nm (off + 4 + 0x24))) next).
        exists off. cbn [name id_pair]. auto 10.
      * intros Hn. eapply history_body_range_error; eauto.
    + intros Hname.
      destruct (list_eq_dec Byte.byte_eq_dec window mrahistory) as [->|Hne].
      * destruct (Hname eq_refl) as (nm & Hnm).
        exists (Some (mkEmail nm (off + 4 + 0x24))).
        rewrite (history_body_run st file_size tbl id
                   (Some (mkEmail nm (off + 4 + 0x24))) next).
        -- split; [reflexivity|]. split; [reflexivity|discriminate].
        -- exists off. cbn [name id_pair]. auto 10.
      * exists None.
        rewrite (history_body_run st file_size tbl id None next).
        -- split; [reflexivity|]. split; [congruence|contradiction].
        -- exists off, window. auto 10.
  - intros st file_size tbl t1 cursor k id st1 off units fuel
      Ht1 Hc Ht Hid Hk Hoff Hlt Hw Eu Hn.
    unfold get_history.
    rewrite (bind_done _ _ _ _ _ (offset_table_some _ _ _ _ Ht1)).
    erewrite bind_done by (apply load_some; exact Hc).
    assert (Hb : buf st1 = buf st).
    { apply (turns_buf (history_body file_size tbl)
               (fun c => frames_history_body (fun _ => True) file_size tbl c I)
               _ _ _ _ _ Ht). }
    rewrite <- Hb in Hoff, Hw, Eu.
    erewrite turns_range_error;
      [|exact Ht|exact Hid
       |apply (history_body_range_error _ _ _ _ off units); eassumption
       |exact Hk].
    now rewrite Hb.
  - intros st file_size tbl t1 a b c e fuel Ht1 Ha Haz Hbz Hcz Ra Rb Rc Hf.
    unfold get_history.
    rewrite (bind_done _ _ _ _ _ (offset_table_some _ _ _ _ Ht1)).
    erewrite bind_done by (apply load_some; exact Ha).
    rewrite (chain_loop_run _ (fun b => history_record_at b file_size tbl))
      with (b := buf st) (visits := [(a, None); (b, Some e); (c, None)]).
    + reflexivity.
    + intros s c0 x nx. apply history_body_run.
    + apply chain_step with (next := b); [assumption|exact Ra|].
      apply chain_step with (next := c); [assumption|exact Rb|].
      apply chain_step with (next := 0); [assumption|exact Rc|constructor].
    + reflexivity.
    + cbn [length]. lia.
Qed.

Lemma marker_decides_emission_witness :
  (exists pushed,
     fst (history_body 0x680 0x20 3 (mkState Sample.three_chain []))
     = Done (pushed, 4) /\
     (pushed <> None <-> mrahistory = mrahistory)) /\
  history_body 0x680 0x20 2 (mkState Sample.three_chain [])
  = (Done (None, 3), mkState Sample.three_chain [2]) /\
  get_history 1 0x280 0x20 (mkState Edge2.lone_surrogate [])
  = (RangeError, mkState Edge2.lone_surrogate [2; 1]) /\
  get_history 3 0x680 0x20 (mkState Sample.three_chain [])
  = (Done [mkEmail "eve" 680], mkState Sample.three_chain [4; 3; 2; 1]).
Proof.
  destruct marker_decides_emission as (T1 & T2 & T3).
  split; [|split; [|split]].
  - destruct (T1 (mkState Sample.three_chain []) 0x680 0x20 3 0x280
                mrahistory 4) as (_ & _ & Tc);
      [vm_compute; reflexivity|reflexivity
      |vm_compute; reflexivity|vm_compute; reflexivity|].
    apply Tc. intros _. exists "eve"%string. vm_compute; reflexivity.
  - destruct (T1 (mkState Sample.three_chain []) 0x680 0x20 2 0x80
                (repeat x00 22) 3) as (Ta & _ & _);
      [vm_compute; reflexivity|reflexivity
      |vm_compute; reflexivity|vm_compute; reflexivity|].
    apply Ta. vm_compute; discriminate.
  - apply (T2 (mkState Edge2.lone_surrogate []) 0x280 0x20 0x40 2 0%nat 2
             (mkState Edge2.lone_surrogate [1]) 0x80 [0xDC00] 1%nat).
    + vm_compute; reflexivity.
    + vm_compute; reflexivity.
    + reflexivity.
    + discriminate.
    + lia.
    + vm_compute; reflexivity.
    + reflexivity.
    + vm_compute; reflexivity.
    + vm_compute; reflexivity.
    + intros H. inversion H; subst; discriminate.
  - apply (T3 (mkState Sample.three_chain []) 0x680 0x20 0x40 2 3 4
             (mkEmail "eve" 680) 3%nat).
    + vm_compute; reflexivity.
    + vm_compute; reflexivity.
    + discriminate.
    + discriminate.
    + discriminate.
    + exists 0x80, (repeat x00 22). evaluate.
    + exists 0x280. evaluate.
    + exists 0x480, (repeat xff 22). evaluate.
    + lia.
Defined.

(** C2 as stated fails: the only record of this file is visited by the
    scan, lies inside the file and carries the marker, and its name is
    the lone low surrogate 0xDC00, properly terminated.  [to_bytes]
    throws on it: the record is neither pushed nor passed over, no next
    cursor is taken from id2, and no run of the scan completes. *)
Lemma marker_record_with_a_lone_surrogate_is_neither_pushed_nor_skipped :
  get_u32 Edge2.lone_surrogate (0x20 + 4 * 2) = Some 0x80 /\
  0x80 < 0x280 /\
  get_bytes Edge2.lone_surrogate (0x80 + 4 + 0x190) 22 = Some mrahistory /\
  get_u32 Edge2.lone_surrogate (0x80 + 8) = Some 0 /\
  get_cstr16 Edge2.lone_surrogate (0x80 + 4 + 0x190 + 22) = Some [0xDC00] /\
  history_body 0x280 0x20 2 (mkState Edge2.lone_surrogate [1])
  = (RangeError, mkState Edge2.lone_surrogate [2; 1]) /\
  ~ (exists pushed next,
       fst (history_body 0x280 0x20 2 (mkState Edge2.lone_surrogate [1]))
       = Done (pushed, next)) /\
  ~ (exists fuel emails,
       fst (get_history fuel 0x280 0x20 (mkState Edge2.lone_surrogate []))
       = Done emails).
Proof.
  assert (E : history_body 0x280 0x20 2 (mkState Edge2.lone_surrogate [1])
              = (RangeError, mkState Edge2.lone_surrogate [2; 1]))
    by (vm_compute; reflexivity).
  assert (E1 : get_history 1 0x280 0x20 (mkState Edge2.lone_surrogate [])
               = (RangeError, mkState Edge2.lone_surrogate [2; 1]))
    by (vm_compute; reflexivity).
  do 5 (split; [vm_compute; reflexivity|]).
  split; [exact E|]. split.
  - intros (pushed & next & H). rewrite E in H. discriminate.
  - intros (fuel & emails & H).
    destruct (get_history fuel 0x280 0x20 (mkState Edge2.lone_surrogate []))
      as [o s] eqn:Eh. cbn [fst] in H. subst o.
    pose proof (settled_get_history 1 fuel _ _ _ _ _ Eh
                  ltac:(discriminate)) as Eh'.
    pose proof (settled_get_history fuel 1 _ _ _ _ _ E1
                  ltac:(discriminate)) as E1'.
    rewrite Nat.add_comm in E1'. congruence.
Qed.

(** C6, as the code has it: for every message record the scan parses,
    the author is the zero-terminated UTF-16 string that starts right
    after the header, which is 56 bytes long (it stops at the first zero
    code unit, wherever that is); the text position is nickname_length*2
    bytes after the author start; exactly when the code unit there is
    zero and header.type is 0x11 the text starts 3 code units (6 bytes)
    further on, and nowhere else is anything skipped.  Every record laid
    out like this is parsed. *)
Theorem message_strings_follow_the_56_byte_header
  (st : state) (tbl id : Z) (m : Message) (prev : Z) :
  (fst (messages_body tbl id st) = Done (Some m, prev)
   <-> message_at (buf st) tbl id m prev) /\
  (fst (messages_body tbl id st) = Done (Some m, prev) ->
   exists nick first ty author_units text_units,
     get_u32 (buf st) (tbl + 4 * id) = Some (header m) /\
     get_u32 (buf st) (header m + 32) = Some nick /\
     get_u32 (buf st) (header m + 24) = Some ty /\
     get_u16 (buf st) (header m + 56 + 2 * nick) = Some first /\
     units_at (buf st) (header m + 56) author_units /\
     option_map std_string (utf8_of_utf16 author_units) = Some (author m) /\
     units_at (buf st)
       (header m + 56 + 2 * nick
        + (if (first =? 0) && (ty =? 0x11) then 6 else 0)) text_units /\
     option_map std_string (utf8_of_utf16 text_units) = Some (text m)).
Proof.
  assert (Hdone : fst (messages_body tbl id st) = Done (Some m, prev) ->
                  message_at (buf st) tbl id m prev).
  { intros E. destruct (messages_body tbl id st) as [o st'] eqn:Eb.
    cbn [fst] in E. subst o.
    exact (messages_body_done _ _ _ _ _ _ Eb). }
  split; [split; [exact Hdone|]|].
  - intros H. now rewrite (messages_body_run st tbl id (Some m) prev H).
  - intros E. apply Hdone in E.
    destruct E as (nick & first & ty & Hoff & _ & Hnick & Hfirst & Hty
                   & Hau & Htx & _).
    apply decodes_units in Hau as (au & Hau & Eau).
    apply decodes_units in Htx as (tx & Htx & Etx).
    exists nick, first, ty, au, tx. auto 10.
Qed.

Lemma message_strings_follow_the_56_byte_header_witness :
  exists nick first ty author_units text_units,
    get_u32 Sample.sms (0x20 + 4 * 3) = Some 576 /\
    get_u32 Sample.sms (576 + 32) = Some nick /\
    get_u32 Sample.sms (576 + 24) = Some ty /\
    get_u16 Sample.sms (576 + 56 + 2 * nick) = Some first /\
    units_at Sample.sms (576 + 56) author_units /\
    option_map std_string (utf8_of_utf16 author_units) = Some EmptyString /\
    units_at Sample.sms
      (576 + 56 + 2 * nick + (if (first =? 0) && (ty =? 0x11) then 6 else 0))
      text_units /\
    option_map std_string (utf8_of_utf16 text_units) = Some "sms"%string.
Proof.
  apply (proj2 (message_strings_follow_the_56_byte_header
                  (mkState Sample.sms []) 0x20 3 (mkMessage 576 EmptyString "sms") 0)).
  vm_compute. reflexivity.
Defined.

(** C6 as stated fails: the header is 56 bytes long, not 60.  The first
    message of the sample file has the author "ann" at header+56; the
    string at header+60 is another one, and so is the string
    nickname_length*2 bytes after header+60 for the text. *)
Lemma author_does_not_start_60_bytes_in :
  exists m prev st',
    messages_body 0x20 4 (mkState Sample.one_two []) = (Done (Some m, prev), st') /\
    get_u32 Sample.one_two (header m + 32) = Some 4 /\
    decodes Sample.one_two (header m + 56) (author m) /\
    ~ decodes Sample.one_two (header m + 60) (author m) /\
    ~ decodes Sample.one_two (header m + 60 + 2 * 4) (text m).
Proof.
  exists (mkMessage 576 "ann" "hi"), 3,
    (mkState Sample.one_two [4]).
  unfold decodes. evaluate.
Qed.

(** C4, at two files the code can be given: the table sends message ID 4
    to offset 0x1000 of a file of 0x2E0 bytes, and [get_messages], which
    never compares an offset with [file_size], reads the header there;
    and a record offset on the last byte of a file passes the check of
    [get_history], which then reads the 22-byte window past the end.
    Neither run ends in an error of the program: both read outside the
    file.  The message scan is the same whatever [file_size] it is
    given. *)
Theorem unchecked_offsets_are_read :
  (forall fuel file_size file_size' tbl email st,
     get_messages fuel file_size tbl email st
     = get_messages fuel file_size' tbl email st) /\
  (get_u32 Sample.dangling (0x20 + 4 * 4) = Some 0x1000 /\
   Z.of_nat (length Sample.dangling) = 0x2E0 /\
   fst (get_messages 1 0x2E0 0x20 (mkEmail "bob" 168)
          (mkState Sample.dangling [])) = BadRead /\
   forall more, run_main (2 + more) Sample.dangling = BadRead) /\
  (get_u32 Sample.last_byte (0x20 + 4 * 2) = Some 0x7F /\
   Z.of_nat (length Sample.last_byte) = 0x80 /\
   fst (history_body 0x80 0x20 2 (mkState Sample.last_byte [])) = BadRead /\
   forall more, run_main (1 + more) Sample.last_byte = BadRead).
Proof.
  split; [reflexivity|].
  split; (split; [|split; [|split]]); try (vm_compute; reflexivity);
    intros more; apply run_main_settled; try discriminate;
    vm_compute; reflexivity.
Qed.

(** C3, as the code has it: a message record whose magic_number is not
    0x38 fails the assertion of the message scan, so that no author/text
    pair is made of it, and the scan that reaches it returns no messages
    at all; the failed assertion exits the process, so the run of [main]
    ends there and the correspondents after this one are not scanned. *)
Theorem bad_magic_fails_the_assertion_and_ends_the_run
  (fuel : nat) (file_size tbl : Z) (st : state) :
  (forall id off magic,
     get_u32 (buf st) (tbl + 4 * id) = Some off ->
     get_u32 (buf st) (off + 36) = Some magic ->
     magic <> 0x38 ->
     fst (messages_body tbl id st) = AssertFailed) /\
  (forall email head turns_before id st1 off magic,
     get_u32 (buf st) (id_pair email) = Some head ->
     turns turns_before (messages_body tbl) head st = Some (id, st1) ->
     id <> 0 ->
     (turns_before < fuel)%nat ->
     get_u32 (buf st) (tbl + 4 * id) = Some off ->
     get_u32 (buf st) (off + 36) = Some magic ->
     magic <> 0x38 ->
     fst (get_messages fuel file_size tbl email st) = AssertFailed) /\
  (forall before email after printed msgs_count,
     (forall e, In e before ->
        exists ms, fst (get_messages fuel file_size tbl e st) = Done ms) ->
     fst (get_messages fuel file_size tbl email st) = AssertFailed ->
     fst (main_loop fuel file_size tbl (before ++ email :: after)
            printed msgs_count st) = AssertFailed).
Proof.
  split; [|split].
  - intros id off magic Hoff Hmagic Hne.
    now rewrite (messages_body_bad_magic _ _ _ _ _ Hoff Hmagic Hne).
  - intros email head k id st1 off magic Hhead Ht Hid Hk Hoff Hmagic Hne.
    unfold get_messages.
    erewrite bind_done
      by (apply load_some; unfold IdPair_id1; rewrite Z.add_0_r; exact Hhead).
    assert (Hb : buf st1 = buf st).
    { eapply turns_buf; [|exact Ht].
      intros c. now apply frames_messages_body. }
    rewrite <- Hb in Hoff, Hmagic.
    erewrite turns_assert_failed; [reflexivity|exact Ht|exact Hid| |exact Hk].
    exact (messages_body_bad_magic _ _ _ _ _ Hoff Hmagic Hne).
  - intros before email after printed count Hb He.
    now apply main_loop_assert_failed.
Qed.

Lemma bad_magic_fails_the_assertion_and_ends_the_run_witness :
  let st := mkState Sample.two_bad [] in
  fst (messages_body 0x20 4 st) = AssertFailed /\
  fst (get_messages 2 0x500 0x20 (mkEmail "ann" 168) st) = AssertFailed /\
  fst (main_loop 2 0x500 0x20 ([] ++ [mkEmail "ann" 168; mkEmail "bob" 680])
         [] 0 st) = AssertFailed.
Proof.
  intros st.
  destruct (bad_magic_fails_the_assertion_and_ends_the_run 2 0x500 0x20 st)
    as (T1 & T2 & T3).
  split; [|split].
  - apply (T1 4 0x480 0x37); [vm_compute; reflexivity..|discriminate].
  - apply (T2 (mkEmail "ann" 168) 4 0%nat 4 st 0x480 0x37);
      [vm_compute; reflexivity|reflexivity|discriminate|lia
      |vm_compute; reflexivity|vm_compute; reflexivity|discriminate].
  - apply T3; [intros e []|vm_compute; reflexivity].
Defined.

(** C3 as stated fails: in this file the first correspondent has a
    message with magic number 0x37 and the second one a sound message.
    The scan of the first fails the assertion, the scan of the second
    alone would return its message, and no run of [main] on the file
    completes, whatever the fuel. *)
Lemma bad_magic_of_one_correspondent_stops_the_others :
  exists ann bob st',
    get_history 2 0x500 0x20 (mkState Sample.two_bad [])
    = (Done [ann; bob], st') /\
    fst (get_messages 2 0x500 0x20 ann st') = AssertFailed /\
    fst (get_messages 2 0x500 0x20 bob st')
    = Done [mkMessage 0x4C0 "me" "yo"] /\
    run_main 2 Sample.two_bad = AssertFailed /\
    ~ (exists fuel r, run_main fuel Sample.two_bad = Done r).
Proof.
  exists (mkEmail "ann" 168), (mkEmail "bob" 680),
    (mkState Sample.two_bad [3; 2; 1]).
  assert (E2 : run_main 2 Sample.two_bad = AssertFailed)
    by (vm_compute; reflexivity).
  split; [vm_compute; reflexivity|].
  split; [vm_compute; reflexivity|].
  split; [vm_compute; reflexivity|].
  split; [exact E2|].
  intros (fuel & r & E).
  apply (run_main_settled fuel 2) in E; [|discriminate].
  apply (run_main_settled 2 fuel) in E2; [|discriminate].
  rewrite Nat.add_comm in E2. congruence.
Qed.

(** C5, as the code has it: neither loop has a cycle guard.  A scan
    ends when its chain reaches ID 0 after finitely many records; when
    the chain leads to an ID from which, through records that pass every
    check, it comes back to that ID, the scan does not end, whatever the
    fuel. *)
Theorem scans_end_when_the_chain_ends_and_not_on_a_cycle
  (file_size tbl : Z) (st : state) :
  (forall table_1 cursor,
     get_u32 (buf st) (tbl + 4 * 1) = Some table_1 ->
     get_u32 (buf st) (table_1 + 0x2C) = Some cursor ->
     let st1 := mkState (buf st) (1 :: resolved st) in
     (forall n st',
        turns n (history_body file_size tbl) cursor st1 = Some (0, st') ->
        forall fuel, (n <= fuel)%nat ->
        exists emails, get_history fuel file_size tbl st = (Done emails, st')) /\
     (forall j k d st2 st3,
        turns j (history_body file_size tbl) cursor st1 = Some (d, st2) ->
        d <> 0 -> (0 < k)%nat ->
        turns k (history_body file_size tbl) d st2 = Some (d, st3) ->
        forall fuel, fst (get_history fuel file_size tbl st) = OutOfFuel)) /\
  (forall email head,
     get_u32 (buf st) (id_pair email) = Some head ->
     (forall n st',
        turns n (messages_body tbl) head st = Some (0, st') ->
        forall fuel, (n <= fuel)%nat ->
        exists msgs, get_messages fuel file_size tbl email st = (Done msgs, st')) /\
     (forall j k d st2 st3,
        turns j (messages_body tbl) head st = Some (d, st2) ->
        d <> 0 -> (0 < k)%nat ->
        turns k (messages_body tbl) d st2 = Some (d, st3) ->
        forall fuel, fst (get_messages fuel file_size tbl email st) = OutOfFuel)).
Proof.
  split.
  - intros t1 c Ht1 Hc st1.
    assert (E : forall fuel,
              get_history fuel file_size tbl st
              = chain_loop fuel (history_body file_size tbl) c [] st1).
    { intros fuel. unfold get_history.
      rewrite (bind_done _ _ _ _ _ (offset_table_some _ _ _ _ Ht1)).
      erewrite bind_done by (apply load_some; exact Hc). reflexivity. }
    split.
    + intros n st' Hn fuel Hf. rewrite E. eapply turns_stop; eauto.
    + intros j k d st2 st3 Hj Hd Hk Hcyc fuel. rewrite E.
      eapply chain_loop_lasso; eauto.
      intros c0. now apply frames_history_body.
  - intros email head Hhead.
    assert (E : forall fuel,
              get_messages fuel file_size tbl email st
              = chain_loop fuel (messages_body tbl) head [] st).
    { intros fuel. unfold get_messages.
      erewrite bind_done
        by (apply load_some; unfold IdPair_id1; rewrite Z.add_0_r; exact Hhead).
      reflexivity. }
    split.
    + intros n st' Hn fuel Hf. rewrite E. eapply turns_stop; eauto.
    + intros j k d st2 st3 Hj Hd Hk Hcyc fuel. rewrite E.
      eapply chain_loop_lasso; eauto.
      intros c0. now apply frames_messages_body.
Qed.

Lemma scans_end_when_the_chain_ends_and_not_on_a_cycle_witness :
  (exists msgs,
     get_messages 2 0x2E0 0x20 (mkEmail "bob" 168) (mkState Sample.one_two [])
     = (Done msgs, mkState Sample.one_two [3; 4])) /\
  (forall fuel,
     fst (get_history fuel 0x280 0x20 (mkState Sample.cyclic_history []))
     = OutOfFuel).
Proof.
  split.
  - destruct (scans_end_when_the_chain_ends_and_not_on_a_cycle
                0x2E0 0x20 (mkState Sample.one_two [])) as (_ & T).
    destruct (T (mkEmail "bob" 168) 4) as (T1 & _); [vm_compute; reflexivity|].
    apply (T1 2%nat); [vm_compute; reflexivity|lia].
  - destruct (scans_end_when_the_chain_ends_and_not_on_a_cycle
                0x280 0x20 (mkState Sample.cyclic_history [])) as (T & _).
    destruct (T 0x40 2) as (_ & T2); [vm_compute; reflexivity..|].
    apply (T2 0%nat 1%nat 2 (mkState Sample.cyclic_history [1])
             (mkState Sample.cyclic_history [2; 1]));
      [reflexivity|discriminate|lia|vm_compute; reflexivity].
Defined.

(** C5 as stated fails: the only record of the first file is its own
    successor, and the two messages of the second file name each other
    as predecessor; no amount of fuel brings either scan to an end, be
    it with an error. *)
Lemma cyclic_chains_are_walked_forever :
  (forall fuel,
     fst (get_history fuel 0x280 0x20 (mkState Sample.cyclic_history []))
     = OutOfFuel) /\
  (forall fuel,
     fst (get_messages fuel 0x2E0 0x20 (mkEmail "bob" 168)
            (mkState Sample.cyclic_messages []))
     = OutOfFuel) /\
  (forall fuel, run_main fuel Sample.cyclic_history = OutOfFuel).
Proof.
  assert (H1 : forall fuel r,
            fst (get_history fuel 0x280 0x20 (mkState Sample.cyclic_history r))
            = OutOfFuel).
  { intros fuel r. unfold get_history.
    erewrite bind_done with (a := 0x40)
      by (apply offset_table_some; vm_compute; reflexivity).
    erewrite bind_done with (a := 2)
      by (apply load_some; vm_compute; reflexivity).
    apply chain_loop_cycle
      with (k := 1%nat) (st' := mkState Sample.cyclic_history (2 :: 1 :: r));
      [intros c; now apply frames_history_body|discriminate|lia|].
    vm_compute. reflexivity. }
  split; [intros fuel; apply H1|]. split.
  - intros fuel. unfold get_messages.
    erewrite bind_done with (a := 4)
      by (apply load_some; vm_compute; reflexivity).
    apply chain_loop_cycle
      with (k := 2%nat) (st' := mkState Sample.cyclic_messages [3; 4]);
      [intros c; now apply frames_messages_body|discriminate|lia|].
    vm_compute. reflexivity.
  - intros fuel. unfold run_main, main.
    erewrite bind_done with (a := 0x20)
      by (apply load_some; vm_compute; reflexivity).
    erewrite bind_done by reflexivity.
    change (Z.of_nat (length (buf (mkState Sample.cyclic_history []))))
      with 0x280.
    unfold bind at 1.
    specialize (H1 fuel []).
    destruct (get_history fuel 640 32 (mkState Sample.cyclic_history []))
      as [o s]. cbn [fst] in H1. now subst o.
Qed.

(* ================================================================== *)
(** ** Further properties of the scans and of [main] *)

Lemma get_bytes_outside b off len :
  Z.of_nat (length b) < off + len -> get_bytes b off len = None.
Proof.
  intros H. unfold get_bytes.
  destruct ((off <? 0) || (len <? 0)); [reflexivity|].
  destruct (Z.leb_spec (off + len) (Z.of_nat (length b))); [lia|reflexivity].
Qed.

Lemma history_body_out_of_range st file_size tbl id off :
  get_u32 (buf st) (tbl + 4 * id) = Some off ->
  file_size <= off ->
  history_body file_size tbl id st
  = (AssertFailed, mkState (buf st) (id :: resolved st)).
Proof.
  intros Hoff Hge. unfold history_body.
  rewrite (bind_done _ _ _ _ _ (offset_table_some _ _ _ _ Hoff)).
  apply Z.ltb_ge in Hge. unfold bind, assert. now rewrite Hge.
Qed.

(** X1: when the id2 chain of the correspondent scan reaches an ID whose
    table entry is not below [file_size], the scan ends in the failed
    assertion, right after indexing the table with that ID and whether
    or not the entry lies in the file; the correspondents found before
    are lost with it. *)
Theorem offset_past_file_size_fails_the_assertion
  (fuel : nat) (file_size tbl : Z) (st : state)
  (table_1 cursor : Z) (turns_before : nat) (id : Z) (st1 : state) (off : Z) :
  get_u32 (buf st) (tbl + 4 * 1) = Some table_1 ->
  get_u32 (buf st) (table_1 + 0x2C) = Some cursor ->
  turns turns_before (history_body file_size tbl) cursor
    (mkState (buf st) (1 :: resolved st)) = Some (id, st1) ->
  id <> 0 ->
  (turns_before < fuel)%nat ->
  get_u32 (buf st) (tbl + 4 * id) = Some off ->
  file_size <= off ->
  get_history fuel file_size tbl st
  = (AssertFailed, mkState (buf st) (id :: resolved st1)).
Proof.
  intros Ht1 Hc Ht Hid Hk Hoff Hge. unfold get_history.
  rewrite (bind_done _ _ _ _ _ (offset_table_some _ _ _ _ Ht1)).
  erewrite bind_done by (apply load_some; exact Hc).
  assert (Hb : buf st1 = buf st).
  { apply (turns_buf (history_body file_size tbl)
             (fun c => frames_history_body (fun _ => True) file_size tbl c I)
             _ _ _ _ _ Ht). }
  rewrite <- Hb in Hoff.
  erewrite turns_assert_failed;
    [|exact Ht|exact Hid
     |apply (history_body_out_of_range _ _ _ _ off); [exact Hoff|exact Hge]
     |exact Hk].
  now rewrite Hb.
Qed.

Lemma offset_past_file_size_fails_the_assertion_witness :
  get_history 1 0x80 0x20 (mkState Edge.far_record [])
  = (AssertFailed, mkState Edge.far_record [2; 1]).
Proof.
  apply (offset_past_file_size_fails_the_assertion
           1 0x80 0x20 (mkState Edge.far_record []) 0x40 2 0 2
           (mkState Edge.far_record [1]) 0x1000).
  - vm_compute; reflexivity.
  - vm_compute; reflexivity.
  - reflexivity.
  - discriminate.
  - lia.
  - vm_compute; reflexivity.
  - vm_compute; discriminate.
Defined.

(** X2: on a file of fewer than 20 bytes, the empty file among them,
    [main] reads the offset-table location at 0x10 outside the file;
    nothing is scanned. *)
Theorem main_reads_past_a_short_file (fuel : nat) (file : list byte) :
  (length file < 20)%nat ->
  main fuel (mkState file []) = (BadRead, mkState file []).
Proof.
  intros H. unfold main, bind.
  rewrite load_none; [reflexivity|].
  cbn [buf]. unfold get_u32, get_uint, OFFSETS_TABLE_LOC_OFFSET.
  rewrite get_bytes_outside by lia. reflexivity.
Qed.

Lemma main_reads_past_a_short_file_witness :
  main 5 (mkState [] []) = (BadRead, mkState [] []) /\
  main 5 (mkState Edge.stub []) = (BadRead, mkState Edge.stub []).
Proof.
  split.
  - apply (main_reads_past_a_short_file 5 []). cbn. lia.
  - apply (main_reads_past_a_short_file 5 Edge.stub). cbn. lia.
Defined.

(** The chain behind a completed scan. *)
Lemma get_history_chain fuel file_size tbl st emails st' :
  get_history fuel file_size tbl st = (Done emails, st') ->
  exists table_1 cursor visits,
    get_u32 (buf st) (tbl + 4 * 1) = Some table_1 /\
    get_u32 (buf st) (table_1 + 0x2C) = Some cursor /\
    chain (history_record_at (buf st) file_size tbl) cursor visits /\
    emails = pushed_of visits /\
    st' = mkState (buf st) (rev (map fst visits) ++ 1 :: resolved st).
Proof.
  intros E. unfold get_history in E.
  apply bind_inv in E as (t1 & st1 & E1 & E).
  apply offset_table_inv in E1 as (Ht1 & ->).
  apply bind_inv in E as (c & st1 & E1 & E).
  apply load_inv in E1 as (Hc & ->). cbn [buf] in Hc.
  apply (chain_loop_done _ (fun b => history_record_at b file_size tbl)) in E.
  - destruct E as (visits & Hch & -> & -> & _). cbn [buf resolved] in *.
    exists t1, c, visits. repeat split; auto.
  - intros s c0 x nx. apply history_body_run.
  - intros s c0 x nx s'. apply history_body_done.
Qed.

Lemma get_messages_chain fuel file_size tbl email st msgs st' :
  get_messages fuel file_size tbl email st = (Done msgs, st') ->
  exists head visits,
    get_u32 (buf st) (id_pair email) = Some head /\
    chain (message_record_at (buf st) tbl) head visits /\
    msgs = pushed_of visits /\
    st' = mkState (buf st) (rev (map fst visits) ++ resolved st).
Proof.
  intros E. unfold get_messages in E.
  apply bind_inv in E as (head & st1 & E1 & E).
  apply load_inv in E1 as (Hhead & ->).
  unfold IdPair_id1 in Hhead. rewrite Z.add_0_r in Hhead.
  apply (chain_loop_done _ (fun b => message_record_at b tbl)) in E.
  - destruct E as (visits & Hch & -> & -> & _).
    exists head, visits. repeat split; auto.
  - intros s c0 x nx. apply messages_body_run.
  - intros s c0 x nx s'. apply messages_body_done.
Qed.

Lemma get_messages_start fuel file_size tbl email st head :
  get_u32 (buf st) (id_pair email) = Some head ->
  get_messages fuel file_size tbl email st
  = chain_loop fuel (messages_body tbl) head [] st.
Proof.
  intros Hhead. unfold get_messages.
  erewrite bind_done
    by (apply load_some; unfold IdPair_id1; rewrite Z.add_0_r; exact Hhead).
  reflexivity.
Qed.

Lemma chain_pushed_in {A} (R : Z -> option A -> Z -> Prop) c visits a :
  chain R c visits -> In a (pushed_of visits) ->
  exists id next, id <> 0 /\ In (id, Some a) visits /\ R id (Some a) next.
Proof.
  induction 1 as [|id x next rest Hid HR Hrest IH]; cbn [pushed_of];
    [contradiction|].
  destruct x as [a'|].
  - intros [->|Hin].
    + exists id, next. repeat split; auto. now left.
    + destruct (IH Hin) as (id' & next' & H1 & H2 & H3).
      exists id', next'. repeat split; auto. now right.
  - intros Hin. destruct (IH Hin) as (id' & next' & H1 & H2 & H3).
    exists id', next'. repeat split; auto. now right.
Qed.

(* ------------------------------------------------------------------ *)

Lemma main_loop_done fuel file_size tbl st : forall emails printed0 count0 st1 printed count st',
  buf st1 = buf st ->
  0 <= count0 < 2 ^ 64 ->
  main_loop fuel file_size tbl emails printed0 count0 st1
  = (Done (printed, count), st') ->
  exists new,
    printed = printed0 ++ new /\
    map fst new = emails /\
    Forall (fun p => fst (get_messages fuel file_size tbl (fst p) st)
                     = Done (snd p)) new /\
    count = (count0 + total_messages new) mod 2 ^ 64.
Proof.
  induction emails as [|e emails IH];
    intros printed0 count0 st1 printed count st' Hb Hc E; cbn [main_loop] in E.
  - apply ret_inv in E as ([= -> ->] & _). exists [].
    rewrite app_nil_r. cbn. rewrite Z.add_0_r, Z.mod_small by assumption.
    repeat split; auto.
  - apply bind_inv in E as (ms & s2 & E1 & E).
    assert (Hf : frames (fun _ => True) (get_messages fuel file_size tbl e))
      by (apply frames_get_messages; auto).
    pose proof (frames_buf _ _ st1 Hf) as Hb2. rewrite E1 in Hb2. cbn in Hb2.
    pose proof (frames_outcome _ _ st st1 Hf Hb) as Ho.
    rewrite E1 in Ho. cbn [fst] in Ho.
    apply IH in E as (new & -> & <- & HF & ->);
      [|congruence|apply Z.mod_pos_bound; lia].
    exists ((e, ms) :: new). rewrite <- app_assoc. cbn [app map fst].
    repeat split; auto.
    cbn [total_messages fold_right snd].
    fold (total_messages new).
    rewrite Z.add_mod_idemp_l by lia. f_equal. lia.
Qed.

Lemma main_loop_run fuel file_size tbl st : forall new printed0 count0 st1,
  buf st1 = buf st ->
  0 <= count0 < 2 ^ 64 ->
  Forall (fun p => fst (get_messages fuel file_size tbl (fst p) st)
                   = Done (snd p)) new ->
  fst (main_loop fuel file_size tbl (map fst new) printed0 count0 st1)
  = Done (printed0 ++ new, (count0 + total_messages new) mod 2 ^ 64).
Proof.
  induction new as [|[e ms] new IH]; intros printed0 count0 st1 Hb Hc HF;
    cbn [map fst main_loop].
  - cbn. rewrite app_nil_r, Z.add_0_r, Z.mod_small by assumption. reflexivity.
  - inversion HF as [|p l H1 H2]; subst. cbn [fst snd] in H1.
    assert (Hf : frames (fun _ => True) (get_messages fuel file_size tbl e))
      by (apply frames_get_messages; auto).
    pose proof (frames_buf _ _ st1 Hf) as Hb2.
    pose proof (frames_outcome _ _ st st1 Hf Hb) as Ho. rewrite H1 in Ho.
    unfold bind.
    destruct (get_messages fuel file_size tbl e st1) as [o s2].
    cbn [fst snd] in *. subst o.
    rewrite IH; [|congruence|apply Z.mod_pos_bound; lia|assumption].
    rewrite <- app_assoc. cbn [app].
    cbn [total_messages fold_right snd]. fold (total_messages new).
    rewrite Z.add_mod_idemp_l by lia. do 3 f_equal. lia.
Qed.

(** X3: a run of [main] completes exactly when the offset-table
    location at 0x10 can be read, the correspondent scan completes and
    the message scan of each correspondent it returned completes; what
    it prints is then each of these correspondents, in the order of the
    scan, with the messages of its own scan, and [msgs_count] is the
    total number of messages modulo 2^64. *)
Theorem main_prints_each_scan_in_order
  (fuel : nat) (st : state)
  (printed : list (Email * list Message)) (msgs_count : Z) :
  fst (main fuel st) = Done (printed, msgs_count) <->
  exists tbl,
    get_u32 (buf st) 0x10 = Some tbl /\
    fst (get_history fuel (Z.of_nat (length (buf st))) tbl st)
    = Done (map fst printed) /\
    Forall (fun p =>
              fst (get_messages fuel (Z.of_nat (length (buf st))) tbl (fst p) st)
              = Done (snd p)) printed /\
    msgs_count = total_messages printed mod 2 ^ 64.
Proof.
  assert (Hh : forall tbl, frames (fun _ => True)
            (get_history fuel (Z.of_nat (length (buf st))) tbl))
    by (intros; apply frames_get_history; auto).
  split.
  - intros E. destruct (main fuel st) as [o st'] eqn:Em. cbn [fst] in E.
    subst o. unfold main in Em.
    apply bind_inv in Em as (tbl & st1 & E1 & Em).
    apply load_inv in E1 as (Htbl & ->).
    apply bind_inv in Em as (fs & st1 & E1 & Em).
    injection E1 as <- <-.
    apply bind_inv in Em as (emails & st1 & E1 & Em).
    pose proof (frames_buf _ _ st (Hh tbl)) as Hb. rewrite E1 in Hb.
    cbn [snd] in Hb.
    apply (main_loop_done _ _ _ st) in Em as (new & -> & <- & HF & ->);
      [|assumption|lia].
    exists tbl. rewrite E1. cbn [app fst]. repeat split; auto.
  - intros (tbl & Htbl & Ehist & HF & ->). unfold main.
    erewrite bind_done by (apply load_some; exact Htbl).
    erewrite bind_done by reflexivity.
    pose proof (frames_buf _ _ st (Hh tbl)) as Hb.
    unfold bind at 1.
    destruct (get_history fuel (Z.of_nat (length (buf st))) tbl st)
      as [o st1]. cbn [fst snd] in *. subst o.
    rewrite (main_loop_run _ _ _ st); auto. lia.
Qed.

Lemma main_prints_each_scan_in_order_witness :
  exists tbl,
    get_u32 Sample.one_two 0x10 = Some tbl /\
    fst (get_history 2 0x2E0 tbl (mkState Sample.one_two []))
    = Done [mkEmail "bob" 168] /\
    Forall (fun p =>
              fst (get_messages 2 0x2E0 tbl (fst p) (mkState Sample.one_two []))
              = Done (snd p))
      [(mkEmail "bob" 168,
        [mkMessage 576 "ann" "hi"; mkMessage 656 "bob" "yo"])] /\
    2 = total_messages
          [(mkEmail "bob" 168,
            [mkMessage 576 "ann" "hi"; mkMessage 656 "bob" "yo"])] mod 2 ^ 64.
Proof.
  apply (proj1 (main_prints_each_scan_in_order 2 (mkState Sample.one_two [])
                  [(mkEmail "bob" 168,
                    [mkMessage 576 "ann" "hi"; mkMessage 656 "bob" "yo"])] 2)).
  vm_compute. reflexivity.
Defined.

(** X4: the message scan of a correspondent returns no message exactly
    when the head ID in its IdPair is 0; it then returns at once, for
    any fuel, without indexing the offset table. *)
Theorem no_messages_exactly_for_head_zero
  (fuel : nat) (file_size tbl : Z) (email : Email) (st : state) (head : Z) :
  get_u32 (buf st) (id_pair email) = Some head ->
  (head = 0 -> get_messages fuel file_size tbl email st = (Done [], st)) /\
  (fst (get_messages fuel file_size tbl email st) = Done [] -> head = 0).
Proof.
  intros Hhead. split.
  - intros ->. rewrite (get_messages_start _ _ _ _ _ _ Hhead).
    apply chain_loop_zero.
  - intros E.
    destruct (get_messages fuel file_size tbl email st) as [o st'] eqn:Em.
    cbn [fst] in E. subst o.
    apply get_messages_chain in Em as (head' & visits & Hh' & Hch & Hp & _).
    rewrite Hhead in Hh'. injection Hh' as <-.
    destruct Hch as [|id x next rest Hid HR Hrest]; [reflexivity|].
    destruct x as [m|]; [discriminate Hp|contradiction].
Qed.

Lemma no_messages_exactly_for_head_zero_witness :
  (0 = 0 ->
   get_messages 0 0x280 0x20 (mkEmail "zoe" 168) (mkState Edge.silent [])
   = (Done [], mkState Edge.silent [])) /\
  (fst (get_messages 0 0x280 0x20 (mkEmail "zoe" 168) (mkState Edge.silent []))
   = Done [] -> 0 = 0).
Proof.
  apply (no_messages_exactly_for_head_zero 0 0x280 0x20 (mkEmail "zoe" 168)
           (mkState Edge.silent []) 0).
  vm_compute. reflexivity.
Defined.

(** X5: every correspondent the correspondent scan returns points at an
    IdPair that lies inside the file, 0x28 bytes into a record that
    starts below [file_size]: the message scan can always read its head
    ID. *)
Theorem returned_correspondents_have_a_readable_head
  (fuel : nat) (file_size tbl : Z) (st : state)
  (emails : list Email) (st' : state) :
  get_history fuel file_size tbl st = (Done emails, st') ->
  Forall (fun e =>
            0x28 <= id_pair e < file_size + 0x28 /\
            id_pair e + 8 <= Z.of_nat (length (buf st')) /\
            exists head, get_u32 (buf st') (id_pair e) = Some head) emails.
Proof.
  intros E.
  apply get_history_chain in E as (t1 & c & visits & _ & _ & Hch & -> & ->).
  cbn [buf]. apply Forall_forall. intros e Hin.
  destruct (chain_pushed_in _ _ _ _ Hch Hin) as (id & next & _ & _ & HR).
  destruct HR as (off & Hoff & Hlt & Hw & _ & Hidp & _).
  apply get_uint_nonneg in Hoff. apply get_bytes_bounds in Hw.
  rewrite Hidp. split; [lia|]. split; [lia|].
  unfold get_u32, get_uint.
  destruct (get_bytes_inside (buf st) (off + 4 + 36) 4) as (w & ->); try lia.
  cbn. eauto.
Qed.

Lemma returned_correspondents_have_a_readable_head_witness :
  Forall (fun e =>
            0x28 <= id_pair e < 0x680 + 0x28 /\
            id_pair e + 8 <= Z.of_nat (length Sample.three_chain) /\
            exists head, get_u32 Sample.three_chain (id_pair e) = Some head)
    [mkEmail "eve" 680].
Proof.
  apply (returned_correspondents_have_a_readable_head
           3 0x680 0x20 (mkState Sample.three_chain [])
           [mkEmail "eve" 680] (mkState Sample.three_chain [4; 3; 2; 1])).
  vm_compute. reflexivity.
Defined.

(* ------------------------------------------------------------------ *)

Section Distinct.

Context {A : Type}.
Variable R : Z -> option A -> Z -> Prop.
Variable loc : Z -> option Z.
Variable link : Z -> option Z.
Variable key : A -> Z.

Hypothesis R_functional : forall id x next x' next',
  R id x next -> R id x' next' -> x = x' /\ next = next'.

Hypothesis R_loc : forall id x next,
  R id x next -> exists off, loc id = Some off /\ link off = Some next.

Hypothesis R_key : forall id a next,
  R id (Some a) next -> loc id = Some (key a).

Lemma chain_unique c l1 :
  chain R c l1 -> forall l2, chain R c l2 -> l1 = l2.
Proof.
  induction 1 as [|id x next rest Hid HR Hrest IH]; intros l2 H2;
    inversion H2 as [|id' x' next' rest' Hid' HR' Hrest']; subst;
    try reflexivity; try contradiction.
  destruct (R_functional _ _ _ _ _ HR HR') as (-> & ->).
  f_equal. now apply IH.
Qed.

Lemma chain_suffix l1 : forall c d x l2,
  chain R c (l1 ++ (d, x) :: l2) -> chain R d ((d, x) :: l2).
Proof.
  induction l1 as [|v l1 IH]; intros c d x l2 H; cbn [app] in H.
  - inversion H; subst. exact H.
  - inversion H; subst. eapply IH. eassumption.
Qed.

(** A chain that ends does not come back to an offset it has left. *)
Lemma chain_no_return id x rest d x' off :
  chain R id ((id, x) :: rest) ->
  In (d, x') rest ->
  loc id = Some off -> loc d = Some off -> False.
Proof.
  intros H Hin Hid Hd.
  inversion H as [|i y next r Hnz HR Hrest]; subst.
  apply in_split in Hin as (l1 & l2 & ->).
  pose proof (chain_suffix _ _ _ _ _ Hrest) as Hsuf.
  inversion Hsuf as [|i y next' r Hnz' HR' Hrest']; subst.
  destruct (R_loc _ _ _ HR) as (o1 & E1 & L1).
  destruct (R_loc _ _ _ HR') as (o2 & E2 & L2).
  assert (next' = next) by congruence. subst next'.
  pose proof (chain_unique _ _ Hrest _ Hrest') as El.
  apply (f_equal (@length _)) in El. rewrite length_app in El.
  cbn [length] in El. lia.
Qed.

Lemma chain_ids_distinct c visits :
  chain R c visits -> NoDup (map fst visits).
Proof.
  induction 1 as [|id x next rest Hid HR Hrest IH]; cbn [map fst];
    constructor; [|assumption].
  intros Hin. apply in_map_iff in Hin as ([d x'] & Ed & Hin).
  cbn [fst] in Ed. subst d.
  destruct (R_loc _ _ _ HR) as (off & Hoff & _).
  eapply (chain_no_return id x rest id x' off); eauto.
  econstructor; eauto.
Qed.

Lemma chain_keys_distinct c visits :
  chain R c visits -> NoDup (map key (pushed_of visits)).
Proof.
  induction 1 as [|id x next rest Hid HR Hrest IH]; cbn [pushed_of map];
    [constructor|].
  destruct x as [a|]; [|assumption].
  cbn [map]. constructor; [|assumption].
  intros Hin. apply in_map_iff in Hin as (a' & Ek & Hin).
  destruct (chain_pushed_in _ _ _ _ Hrest Hin) as (d & nx & _ & Hd & HRd).
  apply (chain_no_return id (Some a) rest d (Some a') (key a)).
  - econstructor; eauto.
  - assumption.
  - eapply R_key; eauto.
  - rewrite <- Ek. eapply R_key; eauto.
Qed.

End Distinct.

Lemma history_record_functional b file_size tbl id x next x' next' :
  history_record_at b file_size tbl id x next ->
  history_record_at b file_size tbl id x' next' ->
  x = x' /\ next = next'.
Proof.
  intros H H'.
  pose proof (history_body_run (mkState b []) file_size tbl id x next H) as E.
  rewrite (history_body_run (mkState b []) file_size tbl id x' next' H') in E.
  injection E as <- <-. auto.
Qed.

Lemma message_record_functional b tbl id x next x' next' :
  message_record_at b tbl id x next ->
  message_record_at b tbl id x' next' ->
  x = x' /\ next = next'.
Proof.
  intros H H'.
  pose proof (messages_body_run (mkState b []) tbl id x next H) as E.
  rewrite (messages_body_run (mkState b []) tbl id x' next' H') in E.
  injection E as <- <-. auto.
Qed.

Lemma history_record_loc b file_size tbl id x next :
  history_record_at b file_size tbl id x next ->
  exists off, get_u32 b (tbl + 4 * id) = Some off /\
              get_u32 b (off + 8) = Some next.
Proof.
  destruct x as [e|].
  - intros (off & Hoff & _ & _ & _ & _ & Hnext). eauto.
  - intros (off & w & Hoff & _ & _ & _ & Hnext). eauto.
Qed.

Lemma message_record_loc b tbl id x next :
  message_record_at b tbl id x next ->
  exists off, get_u32 b (tbl + 4 * id) = Some off /\
              get_u32 b (off + 4) = Some next.
Proof.
  destruct x as [m|]; [|contradiction].
  intros (nick & first & ty & Hoff & _ & _ & _ & _ & _ & _ & Hprev). eauto.
Qed.

(** X6: a scan that completes has passed through no record twice: the
    IDs with which it indexed the offset table along the chain are
    pairwise different, and so are the IdPair pointers of the
    correspondents, and the header pointers of the messages, that it
    returns; the message scan returns one message for each ID. *)
Theorem completed_scans_return_no_record_twice
  (fuel : nat) (file_size tbl : Z) (st : state) :
  (forall emails st',
     get_history fuel file_size tbl st = (Done emails, st') ->
     NoDup (map id_pair emails) /\
     exists ids,
       resolved st' = ids ++ 1 :: resolved st /\ NoDup ids /\
       (length emails <= length ids)%nat) /\
  (forall email msgs st',
     get_messages fuel file_size tbl email st = (Done msgs, st') ->
     NoDup (map header msgs) /\
     exists ids,
       resolved st' = ids ++ resolved st /\ NoDup ids /\
       length msgs = length ids).
Proof.
  split.
  - intros emails st' E.
    apply get_history_chain in E as (t1 & c & visits & _ & _ & Hch & -> & ->).
    split.
    + apply (NoDup_map_inv (fun z => z - 0x28)). rewrite map_map.
      apply (chain_keys_distinct
               (history_record_at (buf st) file_size tbl)
               (fun id => get_u32 (buf st) (tbl + 4 * id))
               (fun off => get_u32 (buf st) (off + 8))
               (fun e => id_pair e - 0x28)) with (c := c).
      * apply history_record_functional.
      * apply history_record_loc.
      * intros id e next (off & Hoff & _ & _ & _ & Hidp & _).
        rewrite Hoff, Hidp. f_equal. lia.
      * exact Hch.
    + exists (rev (map fst visits)). cbn [resolved].
      split; [reflexivity|]. split.
      * apply NoDup_rev.
        apply (chain_ids_distinct
                 (history_record_at (buf st) file_size tbl)
                 (fun id => get_u32 (buf st) (tbl + 4 * id))
                 (fun off => get_u32 (buf st) (off + 8))) with (c := c).
        -- apply history_record_functional.
        -- apply history_record_loc.
        -- exact Hch.
      * rewrite length_rev, length_map. clear Hch.
        induction visits as [|[id [e|]] rest IH]; cbn [pushed_of length]; lia.
  - intros email msgs st' E.
    apply get_messages_chain in E as (head & visits & _ & Hch & -> & ->).
    split.
    + apply (chain_keys_distinct
               (message_record_at (buf st) tbl)
               (fun id => get_u32 (buf st) (tbl + 4 * id))
               (fun off => get_u32 (buf st) (off + 4))
               header) with (c := head).
      * apply message_record_functional.
      * apply message_record_loc.
      * intros id m next (nick & first & ty & Hoff & _). exact Hoff.
      * exact Hch.
    + exists (rev (map fst visits)). cbn [resolved].
      split; [reflexivity|]. split.
      * apply NoDup_rev.
        apply (chain_ids_distinct
                 (message_record_at (buf st) tbl)
                 (fun id => get_u32 (buf st) (tbl + 4 * id))
                 (fun off => get_u32 (buf st) (off + 4))) with (c := head).
        -- apply message_record_functional.
        -- apply message_record_loc.
        -- exact Hch.
      * rewrite length_rev, length_map.
        induction Hch as [|id x next rest Hid HR Hrest IH];
          [reflexivity|].
        destruct x as [m|]; [|contradiction].
        cbn [pushed_of length]. now rewrite IH.
Qed.

Lemma completed_scans_return_no_record_twice_witness :
  NoDup (map header [mkMessage 576 "ann" "hi"; mkMessage 656 "bob" "yo"]) /\
  exists ids,
    [3; 4] = ids ++ [] /\ NoDup ids /\
    length [mkMessage 576 "ann" "hi"; mkMessage 656 "bob" "yo"] = length ids.
Proof.
  apply (proj2 (completed_scans_return_no_record_twice
                  2 0x2E0 0x20 (mkState Sample.one_two []))
           (mkEmail "bob" 168)
           [mkMessage 576 "ann" "hi"; mkMessage 656 "bob" "yo"]
           (mkState Sample.one_two [3; 4])).
  vm_compute. reflexivity.
Defined.

(* ------------------------------------------------------------------ *)

Lemma message_chain_linked b tbl c visits :
  chain (message_record_at b tbl) c visits ->
  match pushed_of visits with
  | [] => c = 0
  | m :: _ => c <> 0 /\ get_u32 b (tbl + 4 * c) = Some (header m)
  end /\
  linked b tbl (pushed_of visits).
Proof.
  induction 1 as [|id x next rest Hid HR Hrest (IHh & IHl)];
    [split; [reflexivity|exact I]|].
  destruct x as [m|]; [|contradiction]. cbn [pushed_of].
  destruct HR as (nick & first & ty & Hoff & Hmagic & _ & _ & _ & _ & _ & Hprev).
  split; [split; assumption|].
  cbn [linked]. split; [exact Hmagic|]. split; [|exact IHl].
  exists next. split; [exact Hprev|].
  destruct (pushed_of rest); assumption.
Qed.

(** X7: the messages a completed message scan returns are the chain of
    the file, link by link: the head ID of the correspondent names the
    first one (and is 0 when there is none), every one carries magic
    number 0x38, the prev_id of each names the next one through the
    offset table and is not 0, and the prev_id of the last one is 0. *)
Theorem returned_messages_are_linked_by_prev_id
  (fuel : nat) (file_size tbl : Z) (email : Email) (st : state)
  (msgs : list Message) (st' : state) :
  get_messages fuel file_size tbl email st = (Done msgs, st') ->
  exists head,
    get_u32 (buf st) (id_pair email) = Some head /\
    match msgs with
    | [] => head = 0
    | m :: _ => head <> 0 /\ get_u32 (buf st) (tbl + 4 * head) = Some (header m)
    end /\
    linked (buf st) tbl msgs.
Proof.
  intros E.
  apply get_messages_chain in E as (head & visits & Hhead & Hch & -> & _).
  exists head. split; [exact Hhead|].
  now apply message_chain_linked.
Qed.

Lemma returned_messages_are_linked_by_prev_id_witness :
  exists head,
    get_u32 Sample.one_two 168 = Some head /\
    (head <> 0 /\ get_u32 Sample.one_two (0x20 + 4 * head) = Some 576) /\
    linked Sample.one_two 0x20
      [mkMessage 576 "ann" "hi"; mkMessage 656 "bob" "yo"].
Proof.
  apply (returned_messages_are_linked_by_prev_id
           2 0x2E0 0x20 (mkEmail "bob" 168) (mkState Sample.one_two [])
           [mkMessage 576 "ann" "hi"; mkMessage 656 "bob" "yo"]
           (mkState Sample.one_two [3; 4])).
  vm_compute. reflexivity.
Defined.

(* ------------------------------------------------------------------ *)
(** *** The strings [to_bytes] returns *)

Lemma lor_byte hi lo : 0 < hi < 256 -> 0 <= lo < 256 -> 0 < Z.lor hi lo < 256.
Proof.
  intros Hh Hl.
  assert (H0 : 0 <= Z.lor hi lo) by (apply Z.lor_nonneg; lia).
  assert (H1 : Z.lor hi lo <> 0) by (rewrite Z.lor_eq_0_iff; lia).
  split; [lia|]. change 256 with (2 ^ 8).
  apply Z.log2_lt_pow2; [lia|]. rewrite Z.log2_lor by lia.
  apply Z.max_lub_lt.
  - apply Z.log2_lt_pow2; [lia|]. change (2 ^ 8) with 256. lia.
  - destruct (Z.eq_dec lo 0) as [->|Hn]; [cbn; lia|].
    apply Z.log2_lt_pow2; [lia|]. change (2 ^ 8) with 256. lia.
Qed.

Lemma shiftr_bound c n m :
  0 <= n -> 0 <= c < m * 2 ^ n -> 0 <= Z.shiftr c n < m.
Proof.
  intros Hn Hc. rewrite Z.shiftr_div_pow2 by assumption.
  assert (0 < 2 ^ n) by (apply Z.pow_pos_nonneg; lia).
  split; [apply Z.div_pos; lia|].
  apply Z.div_lt_upper_bound; lia.
Qed.

Lemma land_0x3F x : 0 <= Z.land x 0x3F < 64.
Proof.
  change 0x3F with (Z.ones 6). rewrite Z.land_ones by lia.
  change (2 ^ 6) with 64. apply Z.mod_pos_bound. lia.
Qed.

Lemma utf8_code_point_bytes c :
  0 < c < 0x110000 ->
  Forall (fun z => 0 < z < 256) (utf8_code_point c) /\
  (length (utf8_code_point c) <= 4)%nat /\
  (c < 0x10000 -> (length (utf8_code_point c) <= 3)%nat).
Proof.
  intros Hc. unfold utf8_code_point.
  pose proof (land_0x3F c).
  pose proof (land_0x3F (Z.shiftr c 6)).
  pose proof (land_0x3F (Z.shiftr c 12)).
  destruct (Z.ltb_spec c 0x80) as [|H80].
  { split; [repeat constructor; lia|cbn [length]; split; [lia|intros; lia]]. }
  destruct (Z.ltb_spec c 0x800) as [H800|H800].
  { pose proof (shiftr_bound c 6 32 ltac:(lia)) as Hs.
    change (32 * 2 ^ 6) with 0x800 in Hs. specialize (Hs ltac:(lia)).
    split; [|cbn [length]; split; [lia|intros; lia]].
    repeat constructor; apply lor_byte; lia. }
  destruct (Z.ltb_spec c 0x10000) as [Hbmp|Hbmp].
  { pose proof (shiftr_bound c 12 16 ltac:(lia)) as Hs.
    change (16 * 2 ^ 12) with 0x10000 in Hs. specialize (Hs ltac:(lia)).
    split; [|cbn [length]; split; [lia|intros; lia]].
    repeat constructor; apply lor_byte; lia. }
  pose proof (shiftr_bound c 18 8 ltac:(lia)) as Hs.
  change (8 * 2 ^ 18) with 0x200000 in Hs. specialize (Hs ltac:(lia)).
  split; [|cbn [length]; split; [lia|intros; lia]].
  repeat constructor; apply lor_byte; lia.
Qed.

Lemma utf8_of_utf16_bytes n : forall units bs,
  (length units <= n)%nat ->
  Forall (fun u => 0 < u < 65536) units ->
  utf8_of_utf16 units = Some bs ->
  Forall (fun z => 0 < z < 256) bs /\ (length bs <= 3 * length units)%nat.
Proof.
  induction n as [|n IH]; intros units bs Hn HF E.
  - destruct units; [|cbn in Hn; lia]. injection E as <-.
    split; [constructor|cbn; lia].
  - destruct units as [|u rest]; [injection E as <-; split; [constructor|cbn; lia]|].
    inversion HF as [|? ? Hu HFr]; subst. rewrite utf8_of_utf16_cons in E.
    destruct (is_high_surrogate u) eqn:Ehi.
    + destruct rest as [|u2 rest'];
        [apply some_inj in E; subst bs; split; [constructor|cbn; lia]|].
      destruct (is_low_surrogate u2) eqn:Elo; [|discriminate].
      inversion HFr as [|? ? Hu2 HFr']; subst.
      destruct (utf8_of_utf16 rest') as [bs'|] eqn:Er; [|discriminate].
      unfold option_map in E. apply some_inj in E. subst bs.
      unfold is_high_surrogate in Ehi. unfold is_low_surrogate in Elo.
      apply andb_true_iff in Ehi as (H1 & H2).
      apply andb_true_iff in Elo as (H3 & H4).
      apply Z.leb_le in H1, H2, H3, H4.
      destruct (utf8_code_point_bytes
                  (0x10000 + (u - 0xD800) * 0x400 + (u2 - 0xDC00)))
        as (Fc & Lc & _); [lia|].
      destruct (IH rest' bs') as (Fr & Lr); [cbn in Hn; lia|assumption|exact Er|].
      split; [apply Forall_app; auto|].
      rewrite length_app.
      change (length (u :: u2 :: rest')) with (S (S (length rest'))). lia.
    + destruct (is_low_surrogate u); [discriminate|].
      destruct (utf8_of_utf16 rest) as [bs'|] eqn:Er; [|discriminate].
      unfold option_map in E. apply some_inj in E. subst bs.
      destruct (utf8_code_point_bytes u) as (Fc & _ & Lc); [lia|].
      destruct (IH rest bs') as (Fr & Lr); [cbn in Hn; lia|assumption|exact Er|].
      split; [apply Forall_app; auto|].
      rewrite length_app.
      change (length (u :: rest)) with (S (length rest)).
      specialize (Lc ltac:(lia)). lia.
Qed.

Lemma cstr16_units_range units : forall l,
  cstr16 l = Some units -> Forall (fun u => 0 < u < 65536) units.
Proof.
  induction units as [|u units IH]; intros l E; [constructor|].
  destruct l as [|b0 [|b1 rest]]; cbn [cstr16] in E; try discriminate.
  destruct (Z.eqb_spec (u8 b0 + 256 * u8 b1) 0) as [|Hnz]; [discriminate|].
  destruct (cstr16 rest) as [us|] eqn:Er; [|discriminate].
  apply some_inj in E.
  assert (Hu : u = u8 b0 + 256 * u8 b1) by exact (eq_sym (f_equal (hd 0) E)).
  assert (Hus : units = us) by exact (eq_sym (f_equal (@tl Z) E)).
  subst u units.
  pose proof (u8_range b0). pose proof (u8_range b1).
  constructor; [lia|]. eapply IH. exact Er.
Qed.

Lemma std_string_length bs : String.length (std_string bs) = length bs.
Proof.
  unfold std_string. induction bs as [|z bs IH]; cbn; [reflexivity|].
  now rewrite IH.
Qed.

Lemma std_string_no_nul bs :
  Forall (fun z => 0 < z < 256) bs -> no_nul (std_string bs).
Proof.
  intros HF. unfold no_nul, std_string.
  rewrite list_ascii_of_string_of_list_ascii.
  intros Hin. apply in_map_iff in Hin as (z & Ez & Hz).
  rewrite Forall_forall in HF. specialize (HF z Hz).
  apply (f_equal N_of_ascii) in Ez.
  rewrite N_ascii_embedding in Ez by lia.
  cbn in Ez. lia.
Qed.

(** X8: a string [to_bytes] returns was read entirely inside the file,
    terminator included; it holds no NUL character, whatever the code
    units were, and has at most three bytes for each code unit before
    the terminator. *)
Theorem decoded_strings_stay_inside_and_hold_no_nul
  (st : state) (off : Z) (s : string) (st' : state) :
  to_bytes off st = (Done s, st') ->
  exists units,
    get_cstr16 (buf st) off = Some units /\
    0 <= off /\
    off + 2 * Z.of_nat (length units) + 2 <= Z.of_nat (length (buf st)) /\
    Forall (fun u => 0 < u < 65536) units /\
    no_nul s /\
    (String.length s <= 3 * length units)%nat.
Proof.
  intros E. apply to_bytes_inv in E as (Hd & _).
  unfold decodes, decode in Hd.
  destruct (get_cstr16 (buf st) off) as [units|] eqn:Eu; [|discriminate].
  destruct (utf8_of_utf16 units) as [bs|] eqn:Eb; [|discriminate].
  injection Hd as <-.
  exists units. split; [reflexivity|].
  pose proof (get_cstr16_units _ _ _ Eu) as (_ & Hz).
  unfold get_u16, get_uint in Hz.
  destruct (get_bytes (buf st) (off + 2 * Z.of_nat (length units)) 2)
    as [w|] eqn:Ew; [|discriminate].
  apply get_bytes_bounds in Ew.
  assert (H0 : 0 <= off).
  { unfold get_cstr16 in Eu. destruct (Z.ltb_spec off 0); [discriminate|lia]. }
  assert (HF : Forall (fun u => 0 < u < 65536) units).
  { unfold get_cstr16 in Eu. destruct (off <? 0); [discriminate|].
    eapply cstr16_units_range. exact Eu. }
  destruct (utf8_of_utf16_bytes _ units bs (le_n _) HF Eb) as (Fb & Lb).
  repeat split; try lia; auto.
  - now apply std_string_no_nul.
  - now rewrite std_string_length.
Qed.

Lemma decoded_strings_stay_inside_and_hold_no_nul_witness :
  exists units,
    get_cstr16 Sample.one_two 0x22A = Some units /\
    0 <= 0x22A /\
    0x22A + 2 * Z.of_nat (length units) + 2
    <= Z.of_nat (length Sample.one_two) /\
    Forall (fun u => 0 < u < 65536) units /\
    no_nul "bob" /\
    (String.length "bob" <= 3 * length units)%nat.
Proof.
  apply (decoded_strings_stay_inside_and_hold_no_nul
           (mkState Sample.one_two []) 0x22A "bob"
           (mkState Sample.one_two [])).
  vm_compute. reflexivity.
Defined.

Lemma utf8_of_utf16_ascii units :
  Forall (fun u => u < 0x80) units -> utf8_of_utf16 units = Some units.
Proof.
  induction 1 as [|u rest Hu HF IH]; [reflexivity|].
  rewrite utf8_of_utf16_cons. unfold is_high_surrogate, is_low_surrogate.
  destruct (Z.leb_spec 0xD800 u); [lia|].
  destruct (Z.leb_spec 0xDC00 u); [lia|]. cbn [andb].
  rewrite IH. unfold utf8_code_point.
  destruct (Z.ltb_spec u 0x80); [reflexivity|lia].
Qed.

(** X9: a zero-terminated string all of whose code units are below 0x80
    is returned by [to_bytes] unit for unit, one byte each. *)
Theorem ascii_strings_come_out_unit_for_unit
  (st : state) (off : Z) (units : list Z) :
  get_cstr16 (buf st) off = Some units ->
  Forall (fun u => u < 0x80) units ->
  to_bytes off st = (Done (std_string units), st) /\
  String.length (std_string units) = length units.
Proof.
  intros Eu HF. split; [|apply std_string_length].
  apply to_bytes_run. unfold decodes, decode.
  now rewrite Eu, (utf8_of_utf16_ascii _ HF).
Qed.

Lemma ascii_strings_come_out_unit_for_unit_witness :
  to_bytes 0x22A (mkState Sample.one_two [])
  = (Done (std_string [98; 111; 98]), mkState Sample.one_two []) /\
  String.length (std_string [98; 111; 98]) = length [98; 111; 98].
Proof.
  apply (ascii_strings_come_out_unit_for_unit
           (mkState Sample.one_two []) 0x22A [98; 111; 98]).
  - vm_compute; reflexivity.
  - repeat constructor.
Defined.

(* ------------------------------------------------------------------ *)

(** X10: a record that starts inside the file but does not fit in it is
    read all the same.  A correspondent candidate below [file_size]
    whose marker window (22 bytes, 0x194 bytes into the record) passes
    the end of the file, and a message record whose magic_number field
    (4 bytes, 36 bytes into the record) does, each end the turn of the
    loop with a read outside the file, not with an error of the
    program. *)
Theorem records_that_do_not_fit_are_read_past_the_end
  (st : state) (file_size tbl id off : Z) :
  get_u32 (buf st) (tbl + 4 * id) = Some off ->
  (off < file_size ->
   Z.of_nat (length (buf st)) < off + 4 + 0x190 + 22 ->
   history_body file_size tbl id st
   = (BadRead, mkState (buf st) (id :: resolved st))) /\
  (Z.of_nat (length (buf st)) < off + 36 + 4 ->
   messages_body tbl id st
   = (BadRead, mkState (buf st) (id :: resolved st))).
Proof.
  intros Hoff. split.
  - intros Hlt Hlen. unfold history_body.
    rewrite (bind_done _ _ _ _ _ (offset_table_some _ _ _ _ Hoff)).
    erewrite bind_done by (apply assert_true, Z.ltb_lt; exact Hlt).
    unfold bind at 1. unfold memmem, bind.
    rewrite load_none; [reflexivity|].
    cbn [buf]. apply get_bytes_outside.
    unfold MRAHISTORY_OFFSET.
    change sizeof_mrahistory with 22. lia.
  - intros Hlen. unfold messages_body.
    rewrite (bind_done _ _ _ _ _ (offset_table_some _ _ _ _ Hoff)).
    unfold bind. rewrite load_none; [reflexivity|].
    cbn [buf]. unfold get_u32, get_uint, MessageHeader_magic_number.
    rewrite get_bytes_outside by lia. reflexivity.
Qed.

Lemma records_that_do_not_fit_are_read_past_the_end_witness :
  history_body 0x80 0x20 2 (mkState Sample.last_byte [])
  = (BadRead, mkState Sample.last_byte [2]) /\
  messages_body 0x20 4 (mkState Sample.dangling [])
  = (BadRead, mkState Sample.dangling [4]).
Proof.
  split.
  - apply (proj1 (records_that_do_not_fit_are_read_past_the_end
                    (mkState Sample.last_byte []) 0x80 0x20 2 0x7F
                    ltac:(vm_compute; reflexivity)));
      vm_compute; reflexivity.
  - apply (proj2 (records_that_do_not_fit_are_read_past_the_end
                    (mkState Sample.dangling []) 0x2E0 0x20 4 0x1000
                    ltac:(vm_compute; reflexivity))).
    vm_compute; reflexivity.
Defined.

(* ------------------------------------------------------------------ *)

(** X11: [to_bytes] on a terminated string inside the file throws
    exactly when the string has a low surrogate that does not follow a
    high one, or a high surrogate followed by a code unit that is not a
    low one; a high surrogate as the very last unit does not make it
    throw (the conversion stops there).  A correspondent record with
    the marker and a name on which it throws ends the turn of the
    correspondent scan with the exception instead of being pushed or
    passed over. *)
Theorem unpaired_surrogates_throw
  (st : state) (off : Z) (units : list Z) :
  get_cstr16 (buf st) off = Some units ->
  (to_bytes off st = (RangeError, st) <-> ~ well_paired units) /\
  ((exists s, to_bytes off st = (Done s, st)) <-> well_paired units) /\
  (forall file_size tbl id record,
     ~ well_paired units ->
     get_u32 (buf st) (tbl + 4 * id) = Some record ->
     record < file_size ->
     get_bytes (buf st) (record + 4 + 0x190) 22 = Some mrahistory ->
     off = record + 4 + 0x190 + 22 ->
     history_body file_size tbl id st
     = (RangeError, mkState (buf st) (id :: resolved st))).
Proof.
  intros Eu.
  pose proof (utf8_of_utf16_well_paired _ units (le_n _)) as Hwp.
  assert (Hrun : forall s0 : state, buf s0 = buf st ->
            to_bytes off s0
            = match utf8_of_utf16 units with
              | Some bs => (Done (std_string bs), s0)
              | None => (RangeError, s0)
              end).
  { intros s0 Hb. unfold to_bytes.
    erewrite bind_done by (apply load_some; rewrite Hb; exact Eu).
    destruct (utf8_of_utf16 units); reflexivity. }
  split; [|split].
  - rewrite (Hrun st eq_refl).
    destruct (utf8_of_utf16 units) as [bs|] eqn:Eb.
    + split; [discriminate|]. intros Hn. exfalso. apply Hn, Hwp. eauto.
    + split; [|reflexivity]. intros _ Hw. apply Hwp in Hw as (bs & ?).
      discriminate.
  - rewrite (Hrun st eq_refl).
    destruct (utf8_of_utf16 units) as [bs|] eqn:Eb.
    + split; [intros _; apply Hwp; eauto|eauto].
    + split; [intros (s & ?); discriminate|].
      intros Hw. apply Hwp in Hw as (bs & ?). discriminate.
  - intros file_size tbl id record Hn Hrec Hlt Hw ->. unfold history_body.
    rewrite (bind_done _ _ _ _ _ (offset_table_some _ _ _ _ Hrec)).
    erewrite bind_done by (apply assert_true, Z.ltb_lt; exact Hlt).
    erewrite bind_done by (apply memmem_marker; exact Hw).
    rewrite is_prefix_refl.
    change (record + 4 + MRAHISTORY_OFFSET + sizeof_mrahistory)
      with (record + 4 + 0x190 + 22).
    unfold bind.
    rewrite (Hrun (mkState (buf st) (id :: resolved st)) eq_refl).
    destruct (utf8_of_utf16 units) as [bs|] eqn:Eb; [|reflexivity].
    exfalso. apply Hn, Hwp. eauto.
Qed.

Lemma unpaired_surrogates_throw_witness :
  history_body 0x280 0x20 2 (mkState Edge2.lone_surrogate [])
  = (RangeError, mkState Edge2.lone_surrogate [2]).
Proof.
  destruct (unpaired_surrogates_throw
              (mkState Edge2.lone_surrogate []) (0x80 + 4 + 0x190 + 22)
              [0xDC00] ltac:(vm_compute; reflexivity)) as (_ & _ & T).
  apply (T 0x280 0x20 2 0x80).
  - intros H. inversion H; subst; discriminate.
  - vm_compute; reflexivity.
  - reflexivity.
  - vm_compute; reflexivity.
  - reflexivity.
Defined.

(* ------------------------------------------------------------------ *)

Lemma bind_failed {A B} (m : M A) (k : A -> M B) st o (o' : outcome B) :
  fst (m st) = o -> failed_as o o' -> fst (bind m k st) = o'.
Proof.
  unfold bind. destruct (m st) as [o1 s1]. cbn [fst]. intros ->.
  destruct o, o'; cbn; intros H; try contradiction; reflexivity.
Qed.

Lemma main_loop_failed fuel file_size tbl e after o
  (o' : outcome (list (Email * list Message) * Z)) :
  forall before st printed count,
    (forall e', In e' before ->
       exists ms, fst (get_messages fuel file_size tbl e' st) = Done ms) ->
    fst (get_messages fuel file_size tbl e st) = o ->
    failed_as o o' ->
    fst (main_loop fuel file_size tbl (before ++ e :: after) printed count st)
    = o'.
Proof.
  induction before as [|e' before IH]; intros st printed count Hb He Hf;
    cbn [app main_loop].
  - eapply bind_failed; eauto.
  - destruct (Hb e' (or_introl eq_refl)) as (ms & Hms).
    pose proof (frames_buf _ _ st
      (frames_get_messages (fun _ => True) fuel file_size tbl e' (fun _ _ => I)))
      as Es.
    unfold bind.
    destruct (get_messages fuel file_size tbl e' st) as [o1 s1].
    cbn [fst snd] in *. subst o1.
    apply IH; [| |assumption].
    + intros e2 H2. destruct (Hb e2 (or_intror H2)) as (ms2 & Hms2).
      exists ms2. rewrite <- Hms2.
      eapply frames_outcome; [|exact Es].
      apply (frames_get_messages (fun _ => True)). auto.
    + rewrite <- He.
      eapply frames_outcome; [|exact Es].
      apply (frames_get_messages (fun _ => True)). auto.
Qed.

(** X12: [main] ends with the first scan that does not complete, and as
    that scan ended: with the failure of the correspondent scan, or
    else with the failure of the message scan of the first
    correspondent, in the order of the scan, whose messages cannot all
    be read; the correspondents after it are not scanned. *)
Theorem main_ends_with_the_first_failed_scan
  (fuel : nat) (st : state) (tbl : Z) :
  get_u32 (buf st) 0x10 = Some tbl ->
  (forall o o',
     fst (get_history fuel (Z.of_nat (length (buf st))) tbl st) = o ->
     failed_as o o' ->
     fst (main fuel st) = o') /\
  (forall before e after o o',
     fst (get_history fuel (Z.of_nat (length (buf st))) tbl st)
     = Done (before ++ e :: after) ->
     (forall e', In e' before ->
        exists ms,
          fst (get_messages fuel (Z.of_nat (length (buf st))) tbl e' st)
          = Done ms) ->
     fst (get_messages fuel (Z.of_nat (length (buf st))) tbl e st) = o ->
     failed_as o o' ->
     fst (main fuel st) = o').
Proof.
  intros Htbl.
  assert (Hh : frames (fun _ => True)
            (get_history fuel (Z.of_nat (length (buf st))) tbl))
    by (apply frames_get_history; auto).
  split.
  - intros o o' E Hf. unfold main.
    erewrite bind_done by (apply load_some; exact Htbl).
    erewrite bind_done by reflexivity.
    eapply bind_failed; eauto.
  - intros before e after o o' E Hb He Hf. unfold main.
    erewrite bind_done by (apply load_some; exact Htbl).
    erewrite bind_done by reflexivity.
    pose proof (frames_buf _ _ st Hh) as Es.
    unfold bind at 1.
    destruct (get_history fuel (Z.of_nat (length (buf st))) tbl st)
      as [o1 s1]. cbn [fst snd] in *. subst o1.
    eapply main_loop_failed; [| |exact Hf].
    + intros e2 H2. destruct (Hb e2 H2) as (ms2 & Hms2).
      exists ms2. rewrite <- Hms2.
      eapply frames_outcome; [|exact Es].
      apply (frames_get_messages (fun _ => True)). auto.
    + rewrite <- He.
      eapply frames_outcome; [|exact Es].
      apply (frames_get_messages (fun _ => True)). auto.
Qed.

Lemma main_ends_with_the_first_failed_scan_witness :
  fst (main 2 (mkState Sample.dangling [])) = BadRead /\
  fst (main 1 (mkState Edge.far_record [])) = AssertFailed.
Proof.
  split.
  - destruct (main_ends_with_the_first_failed_scan
                2 (mkState Sample.dangling []) 0x20
                ltac:(vm_compute; reflexivity)) as (_ & T).
    apply (T [] (mkEmail "bob" 168) [] BadRead BadRead).
    + vm_compute; reflexivity.
    + intros e' [].
    + vm_compute; reflexivity.
    + exact I.
  - destruct (main_ends_with_the_first_failed_scan
                1 (mkState Edge.far_record []) 0x20
                ltac:(vm_compute; reflexivity)) as (T & _).
    apply (T AssertFailed AssertFailed).
    + vm_compute; reflexivity.
    + exact I.
Defined.
